(** * Detection decoding and suppression pipeline of DroneDetection/public/app.js

    A shallow embedding of the numeric core of [app.js]: the letterbox
    parameters of [preprocess], [iou], [nms] and [decodeYOLO], followed by
    the input buffer of [preprocess], [drawDetections] and [runInference].

    JavaScript numbers are modelled by exact rationals [Q], the "reals" of
    the data model.  Rounding, NaN and the infinities of IEEE-754 doubles are
    therefore outside the model; where the source can meet them (a read
    beyond the tensor buffer, a division by zero, a product that sits on a
    half before [Math.round], a quotient that rounds to 1) the definition
    concerned says what the model does instead, and the properties are
    stated so that they do not depend on it.  Two places are modelled with
    their rounding: the letterbox parameters, which are rounded to whole
    numbers ([preprocess_double], next to the exact [preprocess]), and the
    [Float32Array] that [preprocess] fills.  Calls to [console.log] and
    [console.error] have no effect on the values computed and are left out. *)

From Stdlib Require Import String.
From Stdlib Require Import QArith Qminmax Qround Qabs Qpower ZArith.
From Stdlib Require Import List Sorted Permutation Bool Lia Lqa.
From Stdlib Require PrimFloat SpecFloat FloatOps Uint63.
From Equations Require Import Equations.
Import ListNotations.

Local Open Scope Q_scope.

(** * Part I: the program *)

(** ** Numbers *)

(** JavaScript [a < b] on numbers. *)
Definition Qltb (a b : Q) : bool :=
  match a ?= b with
  | Lt => true
  | _ => false
  end.

(** [Math.max] and [Math.min] on two arguments. *)
Definition Math_max (a b : Q) : Q := Qmax a b.
Definition Math_min (a b : Q) : Q := Qmin a b.

(** [Math.round]: the nearest integer, halves rounded towards plus infinity. *)
Definition Math_round (x : Q) : Q := inject_Z (Qfloor (x + (1 # 2))).

(** ** Binary floating point *)

(** The arithmetic of the source gives doubles, and a store into a
    [Float32Array] converts a double to the nearest float32.  Both
    roundings are to the nearest value of the format, ties to the even
    significand. *)

(** [2^e] for an integer [e]. *)
Definition pow2 (e : Z) : Q := 2 ^ e.

(** The exponent [e] with [2^e <= q < 2^(e+1)], for [q > 0]. *)
Definition binade (q : Q) : Z :=
  let e := (Z.log2 (Qnum q) - Z.log2 (Zpos (Qden q)))%Z in
  if Qle_bool (pow2 e) q then e else (e - 1)%Z.

(** The nearest integer, halves to the even one. *)
Definition round_half_even (x : Q) : Z :=
  let f := Qfloor x in
  match Qcompare (x - inject_Z f) (1 # 2) with
  | Lt => f
  | Eq => if Z.even f then f else (f + 1)%Z
  | Gt => (f + 1)%Z
  end.

(** The nearest number with a significand of [prec] bits, the last bit
    being worth at least [2^emin] (below [2^(emin + prec - 1)] the format
    is subnormal).  The result is in lowest terms.  The format's largest
    finite number is not modelled: beyond it the source has an infinity. *)
Definition to_binary (prec emin : Z) (q : Q) : Q :=
  match Qnum q with
  | Z0 => 0
  | _ =>
      let e := Z.max (binade (Qabs q) - (prec - 1)) emin in
      let r := Qred (inject_Z (round_half_even (Qabs q / pow2 e)) * pow2 e) in
      if Qle_bool 0 q then r else Qred (- r)
  end.

(** IEEE-754 binary64, the JavaScript number, and binary32, the element of
    a [Float32Array]. *)
Definition to_double : Q -> Q := to_binary 53 (-1074).
Definition to_float32 : Q -> Q := to_binary 24 (-149).

(** For comparison, the binary64 numbers that Rocq has as primitive floats:
    the value of a finite one, and the float of a small integer. *)
Definition float_value (f : PrimFloat.float) : option Q :=
  match FloatOps.Prim2SF f with
  | SpecFloat.S754_zero _ => Some 0
  | SpecFloat.S754_finite s m e =>
      Some (Qred ((if s then - (1) else 1) * (inject_Z (Zpos m) * pow2 e)))
  | _ => None
  end.

Definition float_of_Z (z : Z) : PrimFloat.float :=
  PrimFloat.of_uint63 (Uint63.of_Z z).

(** [f] is the double nearest to [q], as [to_double] computes it. *)
Definition is_to_double (q : Q) (f : PrimFloat.float) : bool :=
  match float_value f with
  | Some v => Qeq_bool v (to_double q)
  | None => false
  end.

(** ** Configuration (lines 5-20) *)

Definition INPUT_SIZE : Q := 640.
Definition CONF_THRESHOLD : Q := 0.4.
Definition NMS_THRESHOLD : Q := 0.5.
Definition CLASSES : list string :=
  ["unknown"; "drone"; "unknown"; "unknown"; "unknown"]%string.

(** ** Detections *)

(** The object literal pushed by [decodeYOLO] and consumed by [iou], [nms]
    and the renderer. *)
Record Detection : Type := mkDetection
  { x1 : Q; y1 : Q; x2 : Q; y2 : Q; score : Q; classId : Z }.

(** ** Intersection over union (lines 69-80) *)

(** The literal [1e-6] of line 79 is written [1 # 1000000].  For boxes with
    [x1 <= x2] and [y1 <= y2] the denominator is positive.  A denominator
    of 0 needs a box with [x1 > x2] or [y1 > y2]; the quotient is then 0
    in [Q], and NaN or an infinity in the source.  The quotient is exact
    here and rounded in the source: for two coinciding boxes of area [A]
    it is [A / (A + 1e-6)], below 1, where the source returns 1 once
    [A + 1e-6] rounds to [A] (from [A = 2^34] on). *)
Definition iou (a b : Detection) : Q :=
  let ix1 := Math_max (x1 a) (x1 b) in
  let iy1 := Math_max (y1 a) (y1 b) in
  let ix2 := Math_min (x2 a) (x2 b) in
  let iy2 := Math_min (y2 a) (y2 b) in
  let interArea := Math_max 0 (ix2 - ix1) * Math_max 0 (iy2 - iy1) in
  let boxAArea := (x2 a - x1 a) * (y2 a - y1 a) in
  let boxBArea := (x2 b - x1 b) * (y2 b - y1 b) in
  interArea / (boxAArea + boxBArea - interArea + (1 # 1000000)).

(** ** Non-maximum suppression (lines 83-94) *)

Section Sorting.
Context {A : Type}.
Variable comparefn : A -> A -> Q.

(** [x] is placed behind [y] only when [comparefn x y > 0]; an element
    that compares equal to those already placed stays in front of them. *)
Fixpoint sort_insert (x : A) (l : list A) : list A :=
  match l with
  | [] => [x]
  | y :: l' =>
      if Qltb 0 (comparefn x y) then y :: sort_insert x l' else x :: l
  end.

(** [Array.prototype.sort] with a consistent comparator: the stable sort.
    Stability makes the result unique, whatever algorithm the engine runs. *)
Definition Array_sort (l : list A) : list A :=
  fold_right sort_insert [] l.
End Sorting.

(** The comparator of line 84, [(a, b) => b.score - a.score]. *)
Definition by_score_desc (a b : Detection) : Q := score b - score a.

(** The test of line 90: [b] stays when its overlap with [current] is below
    the threshold. *)
Definition stays (threshold : Q) (current b : Detection) : bool :=
  Qltb (iou current b) threshold.

(** The [while] loop of lines 87-91 on the state [(boxes, result)]:
    [shift], [push], [filter]. *)
Equations? nms_loop (threshold : Q) (boxes result : list Detection)
  : list Detection by wf (List.length boxes) lt :=
nms_loop threshold [] result := result;
nms_loop threshold (current :: rest) result :=
  nms_loop threshold (filter (stays threshold current) rest)
    (result ++ [current]).
Proof.
  simpl. apply Nat.lt_succ_r, filter_length_le.
Qed.

Definition nms (boxes : list Detection) (threshold : Q) : list Detection :=
  nms_loop threshold (Array_sort by_score_desc boxes) [].

(** ** Letterbox parameters (lines 128-136 of [preprocess]) *)

(** What [preprocess] computes from the image size: [scale], [padX] and
    [padY] are returned next to the input tensor, [newW] and [newH] are the
    locals handed to [drawImage].  The canvas and the pixel buffer are not
    modelled.  [width] and [height] are the integer dimensions of the image
    element; for a zero dimension the source divides by zero and gets an
    infinity, where [Q] has [640 / 0 = 0].  The products of lines 133-134
    are exact here; the source multiplies by the rounded quotient, so that a
    product which is exactly halfway between two integers can come out
    just below the half: for 9984 x 5577 it is 357.49999999999994, and
    [newH] is 357 in the source where 357.5 gives 358 here.
    [preprocess_double] below follows the source there. *)
Record Letterbox : Type := mkLetterbox
  { scale : Q; newW : Q; newH : Q; padX : Q; padY : Q }.

Definition preprocess (width height : Z) : Letterbox :=
  let scale :=
    Math_min (INPUT_SIZE / inject_Z width) (INPUT_SIZE / inject_Z height) in
  let newW := Math_round (inject_Z width * scale) in
  let newH := Math_round (inject_Z height * scale) in
  let padX := Math_round ((INPUT_SIZE - newW) / 2) in
  let padY := Math_round ((INPUT_SIZE - newH) / 2) in
  mkLetterbox scale newW newH padX padY.

(** The same lines with the rounding of the source written out: each of
    [/], [*] and [-] gives the double nearest to the exact result, and
    [Math.round] is exact on a double.  The width and height of an image
    element are unsigned 32-bit integers, doubles themselves.  (For a zero
    dimension the source has an infinity, which [to_double] has not.) *)
Definition preprocess_double (width height : Z) : Letterbox :=
  let scale :=
    Math_min (to_double (INPUT_SIZE / inject_Z width))
             (to_double (INPUT_SIZE / inject_Z height)) in
  let newW := Math_round (to_double (inject_Z width * scale)) in
  let newH := Math_round (to_double (inject_Z height * scale)) in
  let padX := Math_round (to_double (to_double (INPUT_SIZE - newW) / 2)) in
  let padY := Math_round (to_double (to_double (INPUT_SIZE - newH) / 2)) in
  mkLetterbox scale newW newH padX padY.

(** ** YOLOv8 decoding (lines 164-246) *)

(** The output tensor of the inference session: a flat buffer and its shape. *)
Record Tensor : Type := mkTensor { data : list Q; dims : list Z }.

(** [data[idx]]: [None] is JavaScript's [undefined], the value of a read
    beyond the buffer. *)
Definition data_at (data : list Q) (idx : Z) : option Q :=
  if (idx <? 0)%Z then None else nth_error data (Z.to_nat idx).

(** How a run of [decodeYOLO] ends.  [Returned v] is its [return].
    [NotANumber] stands for the runs in which a prediction passes the
    confidence test while one of its four box attributes is [undefined]:
    the source then computes NaN coordinates (or throws on [cx.toFixed] in
    the debug log), which exact rationals cannot express. *)
Inductive outcome (A : Type) : Type :=
| Returned (v : A)
| NotANumber.
Arguments Returned {A} v.
Arguments NotANumber {A}.

Definition bind {A B : Type} (m : outcome A) (k : A -> outcome B) : outcome B :=
  match m with
  | Returned v => k v
  | NotANumber => NotANumber
  end.

Notation "x <- m ;; k" := (bind m (fun x => k))
  (at level 61, m at next level, right associativity).

(** The constants the decoder reads from the top of the file. *)
Record Config : Type := mkConfig
  { conf_threshold : Q; nms_threshold : Q; classes : list string }.

Definition shipped : Config := mkConfig CONF_THRESHOLD NMS_THRESHOLD CLASSES.

(** [Math.max(0, Math.min(hi, v))] of lines 232-235. *)
Definition clamp (hi v : Q) : Q := Math_max 0 (Math_min hi v).

(** Lines 217-238: corners, inverse letterbox mapping, clamping. *)
Definition remap (cx cy w h bestScore : Q) (bestClass : Z)
    (imgWidth imgHeight scale padX padY : Q) : Detection :=
  let x1_model := cx - w / 2 in
  let y1_model := cy - h / 2 in
  let x2_model := cx + w / 2 in
  let y2_model := cy + h / 2 in
  let x1 := (x1_model - padX) / scale in
  let y1 := (y1_model - padY) / scale in
  let x2 := (x2_model - padX) / scale in
  let y2 := (y2_model - padY) / scale in
  {| x1 := clamp imgWidth x1;
     y1 := clamp imgHeight y1;
     x2 := clamp imgWidth x2;
     y2 := clamp imgHeight y2;
     score := bestScore;
     classId := bestClass |}.

(** The integers [0, 1, ..., n-1] visited by [for (let k = 0; k < n; k++)]. *)
Definition upto (n : Z) : list Z := map Z.of_nat (seq 0 (Z.to_nat n)).

Section Decoder.
Variable cfg : Config.
Variable data : list Q.
Variables numClasses numPreds : Z.
Variables imgWidth imgHeight scale padX padY : Q.

(** The score of class channel [c] of prediction [i] (line 201). *)
Definition score_of (i c : Z) : option Q :=
  data_at data (i + (4 + c) * numPreds).

(** Lines 201-206, one turn of the class loop on [(bestScore, bestClass)].
    An [undefined] score is not greater than anything. *)
Definition scan_class (i : Z) (best : Q * Z) (c : Z) : Q * Z :=
  match score_of i c with
  | Some score => if Qltb (fst best) score then (score, c) else best
  | None => best
  end.

(** The number of class channels scanned,
    [Math.min(numClasses, CLASSES.length)]. *)
Definition channels : Z :=
  Z.min numClasses (Z.of_nat (List.length (classes cfg))).

(** Lines 196-207. *)
Definition best_class (i : Z) : Q * Z :=
  fold_left (scan_class i) (upto channels) (0, (-1)%Z).

(** The body of the prediction loop (lines 190-238): [Returned None] is
    the [continue] of line 209, [Returned (Some d)] the [push] of [d]. *)
Definition decode_pred (i : Z) : outcome (option Detection) :=
  let cx := data_at data i in
  let cy := data_at data (i + numPreds) in
  let w := data_at data (i + 2 * numPreds) in
  let h := data_at data (i + 3 * numPreds) in
  let '(bestScore, bestClass) := best_class i in
  if Qltb bestScore (conf_threshold cfg) then Returned None
  else
    match cx, cy, w, h with
    | Some cx, Some cy, Some w, Some h =>
        Returned (Some (remap cx cy w h bestScore bestClass
                          imgWidth imgHeight scale padX padY))
    | _, _, _, _ => NotANumber
    end.

(** The prediction loop of line 186 over the indices [todo], with the
    array [detections] built so far. *)
Fixpoint decode_loop (todo : list Z) (detections : list Detection)
  : outcome (list Detection) :=
  match todo with
  | [] => Returned detections
  | i :: todo' =>
      r <- decode_pred i ;;
      decode_loop todo'
        (match r with
         | Some d => detections ++ [d]
         | None => detections
         end)
  end.
End Decoder.

(** The array [detections] when the loop of line 186 is left, before
    suppression. *)
Definition candidates (cfg : Config) (output : Tensor)
    (imgWidth imgHeight scale padX padY : Q) : outcome (list Detection) :=
  match dims output with
  | [batch; numAttrs; numPreds] =>
      let numClasses := (numAttrs - 4)%Z in
      decode_loop cfg (data output) numClasses numPreds
        imgWidth imgHeight scale padX padY (upto numPreds) []
  | _ => Returned []
  end.

(** [decodeYOLO] with the constants of the top of the file as a parameter.
    A shape that is not of rank 3 is logged with [console.error] and
    answered by [return []] (lines 176-181). *)
Definition decodeYOLO_with (cfg : Config) (output : Tensor)
    (imgWidth imgHeight scale padX padY : Q) : outcome (list Detection) :=
  match dims output with
  | [batch; numAttrs; numPreds] =>
      detections <-
        candidates cfg output imgWidth imgHeight scale padX padY ;;
      Returned (nms detections (nms_threshold cfg))
  | _ => Returned []
  end.

Definition decodeYOLO
  : Tensor -> Q -> Q -> Q -> Q -> Q -> outcome (list Detection) :=
  decodeYOLO_with shipped.

(** ** Vocabulary of the properties *)

(** The area of a box and of the overlap of two boxes, as [iou] computes
    them. *)
Definition area (a : Detection) : Q := (x2 a - x1 a) * (y2 a - y1 a).

Definition interArea (a b : Detection) : Q :=
  Math_max 0 (Math_min (x2 a) (x2 b) - Math_max (x1 a) (x1 b))
  * Math_max 0 (Math_min (y2 a) (y2 b) - Math_max (y1 a) (y1 b)).

(** A box with [x1 <= x2] and [y1 <= y2], as the data model has it. *)
Definition well_formed (a : Detection) : Prop := x1 a <= x2 a /\ y1 a <= y2 a.

(** Two boxes whose interiors do not meet along one of the axes. *)
Definition disjoint (a b : Detection) : Prop :=
  x2 a <= x1 b \/ x2 b <= x1 a \/ y2 a <= y1 b \/ y2 b <= y1 a.

(** Corners inside the image rectangle. *)
Definition within (imgWidth imgHeight : Q) (d : Detection) : Prop :=
  0 <= x1 d <= imgWidth /\ 0 <= x2 d <= imgWidth
  /\ 0 <= y1 d <= imgHeight /\ 0 <= y2 d <= imgHeight.

(** The list [nms_loop] adds to [result]. *)
Definition suppress (threshold : Q) (boxes : list Detection) : list Detection :=
  nms_loop threshold boxes [].

(** [l1] is [l2] with some elements left out, the others in place. *)
Inductive subseq {A : Type} : list A -> list A -> Prop :=
| subseq_nil : subseq [] []
| subseq_take x l1 l2 : subseq l1 l2 -> subseq (x :: l1) (x :: l2)
| subseq_drop x l1 l2 : subseq l1 l2 -> subseq l1 (x :: l2).

(** Descending scores. *)
Definition score_desc (a b : Detection) : Prop := score b <= score a.

(** The overlap of [a] and [b] is below the threshold, whichever of the two
    is passed first to [iou]. *)
Definition apart (threshold : Q) (a b : Detection) : Prop :=
  iou a b < threshold /\ iou b a < threshold.

(** What the class scan of prediction [i] has established once the channels
    below [n] are read: [fst best] bounds their scores, and [best] is either
    the initial pair or the first channel that reaches that bound. *)
Definition scanned (data : list Q) (numPreds i n : Z) (best : Q * Z) : Prop :=
  (forall c v, (0 <= c < n)%Z -> score_of data numPreds i c = Some v ->
               v <= fst best)
  /\ ((snd best = (-1)%Z /\ fst best = 0)
      \/ ((0 <= snd best < n)%Z
          /\ score_of data numPreds i (snd best) = Some (fst best)
          /\ 0 < fst best
          /\ forall c v, (0 <= c < snd best)%Z ->
                         score_of data numPreds i c = Some v -> v < fst best)).

(** The detections pushed while the prediction loop visits [todo]. *)
Definition emitted (cfg : Config) (data : list Q) (numClasses numPreds : Z)
    (imgWidth imgHeight scale padX padY : Q) (todo : list Z) : list Detection :=
  flat_map
    (fun i =>
       match decode_pred cfg data numClasses numPreds
               imgWidth imgHeight scale padX padY i with
       | Returned (Some d) => [d]
       | _ => []
       end) todo.

(** Every width and height stored in the tensor is non-negative. *)
Definition sizes_nonneg (output : Tensor) : Prop :=
  forall batch numAttrs numPreds i v,
    dims output = [batch; numAttrs; numPreds] ->
    (0 <= i < numPreds)%Z ->
    data_at (data output) (i + 2 * numPreds) = Some v
    \/ data_at (data output) (i + 3 * numPreds) = Some v ->
    0 <= v.

(** No class channel scanned for prediction [i] holds a positive score. *)
Definition no_positive_score (cfg : Config) (output : Tensor)
    (numAttrs numPreds i : Z) : Prop :=
  forall c v,
    (0 <= c < Z.min (numAttrs - 4) (Z.of_nat (List.length (classes cfg))))%Z ->
    data_at (data output) (i + (4 + c) * numPreds) = Some v ->
    v <= 0.

From Stdlib Require Import DecimalString.

(** ** The picture on the input canvas (line 140 of [preprocess]) *)

(** [ctx.drawImage(img, padX, padY, newW, newH)] stretches the image to
    [newW] x [newH] canvas pixels and puts its corner at [(padX, padY)]: the
    image point [(x, y)] is drawn at this canvas point.  ([width] and
    [height] are the image's own size.) *)
Definition drawn_at (width height : Z) (p : Letterbox) (x y : Q) : Q * Q :=
  (padX p + x * (newW p / inject_Z width),
   padY p + y * (newH p / inject_Z height)).

(** ** The input buffer (lines 142-150 of [preprocess]) *)

(** A write [a[k] = v] to a typed array: beyond its length nothing is
    written. *)
Fixpoint array_set (a : list Q) (k : nat) (v : Q) : list Q :=
  match a, k with
  | [], _ => []
  | _ :: a', O => v :: a'
  | x :: a', S k' => x :: array_set a' k' v
  end.

(** The same write to a [Float32Array], which stores the float32 nearest
    to [v]. *)
Definition Float32Array_set (a : list Q) (k : nat) (v : Q) : list Q :=
  array_set a k (to_float32 v).

(** [imageData[k] / 255.0] for the RGBA bytes [imageData] of the canvas, a
    [Uint8ClampedArray] whose entries are integers from 0 to 255.  [None]
    stands for the NaN that a read beyond the bytes gives. *)
Definition channel_at (imageData : list Z) (k : nat) : option Q :=
  option_map (fun byte => to_double (inject_Z byte / 255))
    (nth_error imageData k).

(** One turn of the loop of lines 146-150 on the array [input], for a
    canvas of [pixels] pixels.  [None] is kept once a NaN was stored. *)
Definition store_pixel (pixels : nat) (imageData : list Z)
    (input : option (list Q)) (i : nat) : option (list Q) :=
  match input,
        channel_at imageData (i * 4),
        channel_at imageData (i * 4 + 1),
        channel_at imageData (i * 4 + 2) with
  | Some input, Some r, Some g, Some b =>
      Some (Float32Array_set
              (Float32Array_set (Float32Array_set input i r) (i + pixels) g)
              (i + 2 * pixels) b)
  | _, _, _, _ => None
  end.

(** Lines 143-150: [new Float32Array(3 * pixels)], filled by the loop. *)
Definition to_chw (pixels : nat) (imageData : list Z) : option (list Q) :=
  fold_left (store_pixel pixels imageData) (seq 0 pixels)
    (Some (repeat 0 (3 * pixels))).

(** [INPUT_SIZE * INPUT_SIZE], and the buffer [preprocess] hands over. *)
Definition INPUT_PIXELS : nat := Z.to_nat (640 * 640).

Definition input_buffer (imageData : list Z) : option (list Q) :=
  to_chw INPUT_PIXELS imageData.

(** The number found in the buffer for the byte [byte] of a colour
    channel. *)
Definition stored (byte : Z) : Q :=
  to_float32 (to_double (inject_Z byte / 255)).

(** What is checked of [stored byte]: it lies in [0, 1], within [2^-25] of
    [byte / 255], gives [byte] back when multiplied by 255 and rounded, and
    equals [byte / 255] for the bytes 0 and 255 only. *)
Definition stored_check (byte : Z) : bool :=
  Qle_bool 0 (stored byte) && Qle_bool (stored byte) 1
  && Qle_bool (Qabs (stored byte - inject_Z byte / 255)) (1 # 33554432)
  && (Qfloor (255 * stored byte + (1 # 2)) =? byte)%Z
  && Bool.eqb (Qeq_bool (stored byte) (inject_Z byte / 255))
       ((byte =? 0)%Z || (byte =? 255)%Z).

(** The array after the first [k] turns of the loop. *)
Definition filled_upto (pixels : nat) (imageData : list Z) (k : nat)
    (input : list Q) : Prop :=
  List.length input = (3 * pixels)%nat
  /\ (forall i c, (i < pixels)%nat -> (c < 3)%nat ->
        nth_error input (c * pixels + i)
        = if (i <? k)%nat
          then option_map stored (nth_error imageData (i * 4 + c))
          else Some 0)
  /\ ((forall byte, In byte imageData -> (0 <= byte <= 255)%Z) ->
      Forall (fun v => 0 <= v <= 1) input).

(** ** Drawing (lines 23-29 and 252-298) *)

Definition CLASS_COLORS : list string :=
  ["#666666"; "#00ff00"; "#666666"; "#666666"; "#666666"]%string.

(** [table[k]] for an array of strings and an integer [k]. *)
Definition table_at (table : list string) (k : Z) : option string :=
  if (k <? 0)%Z then None else nth_error table (Z.to_nat k).

(** [v || fallback]: [undefined] and the empty string are falsy. *)
Definition or_else (v : option string) (fallback : string) : string :=
  match v with
  | Some EmptyString => fallback
  | Some s => s
  | None => fallback
  end.

(** Lines 265-266. *)
Definition class_color (classId : Z) : string :=
  or_else (table_at CLASS_COLORS classId) "#00ff00".

Definition class_name (classId : Z) : string :=
  or_else (table_at CLASSES classId) "drone".

(** The calls made on the 2D context. *)
Inductive draw : Type :=
| DrawImage (x y : Q)
| StrokeRect (strokeStyle : string) (x y w h : Q)
| FillRect (fillStyle : string) (x y w h : Q)
| FillText (fillStyle text : string) (x y : Q).

Section Drawing.
(** [Number.prototype.toFixed(1)] and the width that [ctx.measureText]
    reports belong to the platform. *)
Variable toFixed1 : Q -> string.
Variable measureText : string -> Q.

(** Line 281. *)
Definition labelY (d : Detection) : Q := Math_max (y1 d - 20 - 4) 20.

(** Lines 273-274. *)
Definition label_of (d : Detection) : string :=
  (class_name (classId d) ++ " " ++ toFixed1 (score d * 100) ++ "%")%string.

(** The body of the [forEach] of lines 263-294, with [textHeight = 20] and
    [padding = 4]. *)
Definition draw_detection (d : Detection) : list draw :=
  let color := class_color (classId d) in
  let textHeight := 20 in
  let padding := 4 in
  [ StrokeRect color (x1 d) (y1 d) (x2 d - x1 d) (y2 d - y1 d);
    FillRect color (x1 d) (labelY d - textHeight)
      (measureText (label_of d) + padding * 2) (textHeight + padding);
    FillText "white" (label_of d) (x1 d + padding) (labelY d - padding) ].

(** The calls of [drawDetections] on the canvas, which was cleared by the
    assignment of its width and height. *)
Definition drawDetections (detections : list Detection) : list draw :=
  DrawImage 0 0 :: flat_map draw_detection detections.
End Drawing.

(** ** Inference (lines 37-48 and 304-344) *)

(** What [setStatus] and [updateStats] write to the page, and the canvas.
    The elapsed time shown by [updateStats] is read off the clock and left
    out. *)
Record Page : Type := mkPage
  { status_text : string;
    status_className : string;
    detectionCount : string;
    statsGrid_shown : bool;
    canvas : list draw }.

(** A number in decimal, as [textContent] and template literals print a
    length. *)
Definition decimal (n : nat) : string :=
  NilZero.string_of_uint (Nat.to_uint n).

Definition setStatus (message type : string) (page : Page) : Page :=
  {| status_text := message;
     status_className := ("status " ++ type)%string;
     detectionCount := detectionCount page;
     statsGrid_shown := statsGrid_shown page;
     canvas := canvas page |}.

Definition updateStats (detections : list Detection) (page : Page) : Page :=
  {| status_text := status_text page;
     status_className := status_className page;
     detectionCount := decimal (List.length detections);
     statsGrid_shown := true;
     canvas := canvas page |}.

(** How [await session.run(feeds)] ends: with the tensor [output0], or with
    an error that carries a message. *)
Inductive run_result : Type :=
| Output0 (output : Tensor)
| Rejected (message : string).

Section Inference.
Variable toFixed1 : Q -> string.
Variable measureText : string -> Q.

(** [runInference] for an image of [width] x [height] pixels.  [session] is
    [None] while no model is loaded, else what the run of the model gives.
    The result is [NotANumber] where [decodeYOLO] is. *)
Definition runInference (session : option run_result) (width height : Z)
    (page : Page) : outcome Page :=
  match session with
  | None => Returned (setStatus "Model not loaded yet" "error" page)
  | Some results =>
      let page := setStatus "Running inference..." "loading" page in
      let prep := preprocess width height in
      match results with
      | Rejected message =>
          Returned (setStatus ("Inference failed: " ++ message) "error" page)
      | Output0 output =>
          detections <-
            decodeYOLO output (inject_Z width) (inject_Z height)
              (scale prep) (padX prep) (padY prep) ;;
          let page :=
            {| status_text := status_text page;
               status_className := status_className page;
               detectionCount := detectionCount page;
               statsGrid_shown := statsGrid_shown page;
               canvas := drawDetections toFixed1 measureText detections |} in
          let page := updateStats detections page in
          Returned
            (match detections with
             | [] => setStatus "No objects detected" "ready" page
             | _ :: _ =>
                 setStatus ("✓ Detected "
                            ++ decimal (List.length detections)
                            ++ " object(s)") "ready" page
             end)
      end
  end.
End Inference.


(** * Part II: properties *)

(** ** Numbers *)

Lemma Qltb_true (a b : Q) : Qltb a b = true <-> a < b.
Proof.
  unfold Qltb. rewrite Qlt_alt. destruct (a ?= b); split; congruence.
Qed.

Lemma Qltb_false (a b : Q) : Qltb a b = false <-> b <= a.
Proof.
  rewrite <- Bool.not_true_iff_false, Qltb_true. split.
  - apply Qnot_lt_le.
  - apply Qle_not_lt.
Qed.

Lemma Math_max_cases (a b : Q) :
  (a <= b /\ Math_max a b == b) \/ (b <= a /\ Math_max a b == a).
Proof.
  unfold Math_max. destruct (Q.max_spec a b) as [[H E] | [H E]].
  - left. split; [apply Qlt_le_weak, H | exact E].
  - right. split; assumption.
Qed.

Lemma Math_min_cases (a b : Q) :
  (a <= b /\ Math_min a b == a) \/ (b <= a /\ Math_min a b == b).
Proof.
  unfold Math_min. destruct (Q.min_spec a b) as [[H E] | [H E]].
  - left. split; [apply Qlt_le_weak, H | exact E].
  - right. split; assumption.
Qed.

(** [Math_round x] is the integer [n] with [x - 1/2 < n <= x + 1/2]. *)
Lemma Math_round_spec (x : Q) :
  exists n : Z,
    Math_round x = inject_Z n /\ x - (1 # 2) < inject_Z n <= x + (1 # 2).
Proof.
  exists (Qfloor (x + (1 # 2))). split; [reflexivity |].
  pose proof (Qfloor_le (x + (1 # 2))) as Hle.
  pose proof (Qlt_floor (x + (1 # 2))) as Hlt.
  rewrite inject_Z_plus in Hlt. change (inject_Z 1) with 1 in Hlt.
  split; lra.
Qed.

Lemma clamp_bounds (hi v : Q) : 0 <= hi -> 0 <= clamp hi v <= hi.
Proof.
  intros Hhi. unfold clamp, Math_max, Math_min. split.
  - apply Q.le_max_l.
  - apply Q.max_lub; [exact Hhi | apply Q.le_min_l].
Qed.

Lemma clamp_monotone (hi u v : Q) : u <= v -> clamp hi u <= clamp hi v.
Proof.
  intros Huv. unfold clamp, Math_max, Math_min.
  apply Q.max_le_compat_l, Q.min_le_compat_l, Huv.
Qed.

Lemma clamp_spec (hi v : Q) :
  0 <= hi ->
  (v <= 0 -> clamp hi v == 0)
  /\ (0 <= v <= hi -> clamp hi v == v)
  /\ (hi <= v -> clamp hi v == hi).
Proof.
  intros Hhi. unfold clamp.
  destruct (Math_min_cases hi v) as [[Hm Em] | [Hm Em]];
  destruct (Math_max_cases 0 (Math_min hi v)) as [[HM EM] | [HM EM]];
  rewrite EM; rewrite Em in *; repeat split; intros; lra.
Qed.

(** ** Loop indices *)

Lemma upto_In (n c : Z) : In c (upto n) <-> (0 <= c < n)%Z.
Proof.
  unfold upto. rewrite in_map_iff. split.
  - intros [k [<- Hk]]. apply in_seq in Hk. lia.
  - intros Hc. exists (Z.to_nat c). split; [lia |]. apply in_seq. lia.
Qed.

Lemma upto_succ (n : Z) : (0 <= n)%Z -> upto (n + 1) = upto n ++ [n].
Proof.
  intros Hn. unfold upto.
  replace (Z.to_nat (n + 1)) with (S (Z.to_nat n)) by lia.
  rewrite seq_S, map_app. simpl. now rewrite Z2Nat.id.
Qed.

Lemma upto_nonpos (n : Z) : (n <= 0)%Z -> upto n = [].
Proof.
  intros Hn. unfold upto. now replace (Z.to_nat n) with 0%nat by lia.
Qed.

Lemma upto_length (n : Z) : List.length (upto n) = Z.to_nat n.
Proof. unfold upto. now rewrite length_map, length_seq. Qed.

Lemma upto_nth (n i : Z) :
  (0 <= i < n)%Z -> nth_error (upto n) (Z.to_nat i) = Some i.
Proof.
  intros Hi. unfold upto.
  rewrite nth_error_map, nth_error_seq.
  replace (Z.to_nat i <? Z.to_nat n)%nat with true
    by (symmetry; apply Nat.ltb_lt; lia).
  simpl. f_equal. lia.
Qed.

(** ** [iou] *)

Lemma iou_unfold (a b : Detection) :
  iou a b = interArea a b / (area a + area b - interArea a b + (1 # 1000000)).
Proof. reflexivity. Qed.

Lemma interArea_sym (a b : Detection) : interArea a b == interArea b a.
Proof.
  unfold interArea, Math_max, Math_min.
  rewrite (Q.min_comm (x2 a)), (Q.max_comm (x1 a)).
  rewrite (Q.min_comm (y2 a)), (Q.max_comm (y1 a)).
  reflexivity.
Qed.

Lemma interArea_nonneg (a b : Detection) : 0 <= interArea a b.
Proof.
  unfold interArea. apply Qmult_le_0_compat; apply Q.le_max_l.
Qed.

Lemma area_nonneg (a : Detection) : well_formed a -> 0 <= area a.
Proof.
  intros [Hx Hy]. unfold area. apply Qmult_le_0_compat; lra.
Qed.

Lemma interArea_self (a : Detection) :
  well_formed a -> interArea a a == area a.
Proof.
  intros [Hx Hy]. unfold interArea, area, Math_max, Math_min.
  rewrite !Q.min_id, !Q.max_id.
  rewrite (Q.max_r 0 (x2 a - x1 a)) by lra.
  rewrite (Q.max_r 0 (y2 a - y1 a)) by lra.
  reflexivity.
Qed.

Lemma interArea_disjoint (a b : Detection) :
  disjoint a b -> interArea a b == 0.
Proof.
  intros H. unfold interArea.
  destruct (Math_min_cases (x2 a) (x2 b)) as [[? Ex2] | [? Ex2]];
  destruct (Math_max_cases (x1 a) (x1 b)) as [[? Ex1] | [? Ex1]];
  destruct (Math_min_cases (y2 a) (y2 b)) as [[? Ey2] | [? Ey2]];
  destruct (Math_max_cases (y1 a) (y1 b)) as [[? Ey1] | [? Ey1]];
  rewrite Ex2, Ex1, Ey2, Ey1; unfold Math_max;
  destruct H as [H | [H | [H | H]]];
  solve [ rewrite (Q.max_l 0 (_ - x1 _)) by lra; ring
        | rewrite (Q.max_l 0 (_ - y1 _)) by lra; ring ].
Qed.

(** The overlap of two well-formed boxes is at most the area of each. *)
Lemma interArea_le_area (a b : Detection) :
  well_formed a -> interArea a b <= area a.
Proof.
  intros [Hx Hy]. unfold interArea, area.
  apply Qmult_le_compat_nonneg.
  - split; [apply Q.le_max_l |].
    apply Q.max_lub; [lra |].
    destruct (Math_min_cases (x2 a) (x2 b)) as [[? E2] | [? E2]];
    destruct (Math_max_cases (x1 a) (x1 b)) as [[? E1] | [? E1]];
    rewrite E2, E1; lra.
  - split; [apply Q.le_max_l |].
    apply Q.max_lub; [lra |].
    destruct (Math_min_cases (y2 a) (y2 b)) as [[? E2] | [? E2]];
    destruct (Math_max_cases (y1 a) (y1 b)) as [[? E1] | [? E1]];
    rewrite E2, E1; lra.
Qed.

(** For well-formed boxes line 79 divides by a positive number, and the
    exact quotient lies in [0, 1). *)
Lemma iou_range (a b : Detection) :
  well_formed a -> well_formed b ->
  0 < area a + area b - interArea a b + (1 # 1000000)
  /\ 0 <= iou a b < 1.
Proof.
  intros Ha Hb.
  pose proof (interArea_le_area a b Ha) as H1.
  pose proof (interArea_le_area b a Hb) as H2.
  rewrite <- (interArea_sym a b) in H2.
  pose proof (interArea_nonneg a b) as H0.
  assert (Hden : 0 < area a + area b - interArea a b + (1 # 1000000)) by lra.
  split; [exact Hden |]. rewrite iou_unfold. split.
  - apply Qle_shift_div_l; [exact Hden | lra].
  - apply Qlt_shift_div_r; [exact Hden | lra].
Qed.

(** C7. [iou] is symmetric: [iou(a, b) == iou(b, a)] for all boxes [a], [b].
    The overlap and the denominator of line 79 are each symmetric, so the
    two quotients agree. *)
Theorem iou_symmetric (a b : Detection) :
  iou a b == iou b a
  /\ interArea a b == interArea b a
  /\ area a + area b - interArea a b + (1 # 1000000)
     == area b + area a - interArea b a + (1 # 1000000).
Proof.
  pose proof (interArea_sym a b) as Hi.
  assert (Hden : area a + area b - interArea a b + (1 # 1000000)
                 == area b + area a - interArea b a + (1 # 1000000)).
  { rewrite Hi. ring. }
  split; [| split; assumption].
  rewrite !iou_unfold. apply Qmult_comp; [exact Hi |].
  apply Qinv_comp, Hden.
Qed.

Lemma iou_self (a : Detection) :
  well_formed a -> iou a a == area a / (area a + (1 # 1000000)).
Proof.
  intros Hwf. rewrite iou_unfold, (interArea_self a Hwf).
  apply Qmult_comp; [reflexivity |].
  apply Qinv_comp. ring.
Qed.

(** The quotient of line 79 in doubles, for a box with itself when the box
    is a square of side 131072: [A + 1e-6] is rounded to [A = 2^34], and the
    quotient is 1. *)
Example iou_self_rounds_to_one :
  let A := inject_Z (131072 * 131072) in
  let denominator :=
    to_double (to_double (to_double (A + A) - A) + to_double (1 # 1000000)) in
  A < A + (1 # 1000000) /\ denominator = A /\ to_double (A / denominator) = 1.
Proof. cbv zeta. repeat split; vm_compute; reflexivity. Qed.

(** C8 (as amended).  For a box [a] with [x1 <= x2] and [y1 <= y2] and area
    [A], [iou(a, a)] is the quotient [A / (A + 1e-6)]: it lies between 0 and
    1, is within 1e-6 of 1.0 once [A >= 1], is 1/2 at most when
    [A <= 1e-6], and is 0 for a box of area 0.  For two disjoint boxes of
    that kind line 79 divides by a positive number and [iou(a, b)] is 0. *)
Theorem iou_self_and_disjoint :
  (forall a : Detection, well_formed a ->
     iou a a == area a / (area a + (1 # 1000000))
     /\ 0 <= iou a a <= 1
     /\ (1 <= area a -> 1 - (1 # 1000000) <= iou a a)
     /\ (area a <= (1 # 1000000) -> iou a a <= 1 # 2)
     /\ (area a == 0 -> iou a a == 0))
  /\ (forall a b : Detection, well_formed a -> well_formed b ->
        disjoint a b ->
        0 < area a + area b - interArea a b + (1 # 1000000)
        /\ iou a b == 0).
Proof.
  split.
  - intros a Hwf. pose proof (area_nonneg a Hwf) as HA.
    pose proof (iou_self a Hwf) as E.
    assert (Hden : 0 < area a + (1 # 1000000)) by lra.
    split; [exact E |]. split; [| split; [| split]].
    + destruct (iou_range a a Hwf Hwf) as [_ [Hge Hlt]].
      split; [exact Hge | apply Qlt_le_weak, Hlt].
    + intros H1. rewrite E. apply Qle_shift_div_l; [exact Hden |].
      nra.
    + intros Hsmall. rewrite E. apply Qle_shift_div_r; [exact Hden |].
      lra.
    + intros H0. rewrite E, H0. reflexivity.
  - intros a b Ha Hb Hd. split; [apply (iou_range a b Ha Hb) |].
    rewrite iou_unfold, (interArea_disjoint a b Hd).
    unfold Qdiv. ring.
Qed.

(** The amended C8 at the box with corners (0,0) and (10,10), and at two
    boxes side by side. *)
Lemma iou_self_and_disjoint_witness :
  let a := mkDetection 0 0 10 10 0.9 1 in
  let b := mkDetection 10 0 20 10 0.8 1 in
  (well_formed a /\ iou a a == area a / (area a + (1 # 1000000))
   /\ 1 - (1 # 1000000) <= iou a a <= 1)
  /\ (well_formed b /\ disjoint a b /\ iou a b == 0).
Proof.
  cbv zeta.
  assert (Hwa : well_formed (mkDetection 0 0 10 10 0.9 1)).
  { unfold well_formed; simpl; split; lra. }
  assert (Hwb : well_formed (mkDetection 10 0 20 10 0.8 1)).
  { unfold well_formed; simpl; split; lra. }
  assert (Hd : disjoint (mkDetection 0 0 10 10 0.9 1)
                 (mkDetection 10 0 20 10 0.8 1)).
  { left. simpl. lra. }
  destruct iou_self_and_disjoint as [Hself Hdis].
  destruct (Hself _ Hwa) as [E [B [Hbig _]]].
  split; [split; [exact Hwa | split; [exact E |]]
         | split; [exact Hwb | split; [exact Hd |]]].
  - split; [apply Hbig; vm_compute; discriminate | apply B].
  - apply Hdis; assumption.
Defined.

(** C8 as stated fails: a box of area 0 has [iou(a, a) = 0], at distance 1
    from 1.0. *)
Lemma iou_self_counterexample :
  let a := mkDetection 5 5 5 5 0.9 1 in
  iou a a == 0 /\ ~ (Qabs (iou a a - 1) < 1).
Proof.
  cbv zeta. split.
  - vm_compute. reflexivity.
  - vm_compute. intros H. discriminate H.
Qed.

(** ** Letterbox *)

(** Dividing by more gives less. *)
Lemma Qdiv_le_antitone (c u v : Q) :
  0 < c -> 0 < u -> 0 < v -> (u <= v <-> c / v <= c / u).
Proof.
  intros Hc Hu Hv. split; intros Hle.
  - apply Qle_shift_div_r; [exact Hv |].
    setoid_replace (c / u * v) with (c * (v / u)) by (field; lra).
    assert (1 <= v / u) by (apply Qle_shift_div_l; lra).
    nra.
  - destruct (Qlt_le_dec v u) as [Hlt | Hge]; [exfalso | exact Hge].
    assert (Hs : c / u < c / v).
    { apply Qlt_shift_div_r; [exact Hu |].
      setoid_replace (c / v * u) with (c * (u / v)) by (field; lra).
      assert (1 < u / v) by (apply Qlt_shift_div_l; lra).
      nra. }
    lra.
Qed.

(** [Math.round] gives a whole number at distance 1/2 at most. *)
Lemma Math_round_nearest (x : Q) :
  exists n : Z,
    Math_round x = inject_Z n
    /\ x - (1 # 2) <= inject_Z n <= x + (1 # 2).
Proof.
  destruct (Math_round_spec x) as [n [E [Hlo Hhi]]].
  exists n. split; [exact E |]. split; [apply Qlt_le_weak, Hlo | exact Hhi].
Qed.

(** Half of a whole number is rounded to itself or, a half, upwards. *)
Lemma Math_round_half (k : Z) :
  exists n : Z,
    Math_round ((INPUT_SIZE - inject_Z k) / 2) = inject_Z n
    /\ (INPUT_SIZE - inject_Z k) / 2 <= inject_Z n
       <= (INPUT_SIZE - inject_Z k) / 2 + (1 # 2).
Proof.
  set (x := (INPUT_SIZE - inject_Z k) / 2).
  exists (Qfloor (x + (1 # 2))). split; [reflexivity |].
  pose proof (Qfloor_le (x + (1 # 2))) as Hle.
  pose proof (Qlt_floor (x + (1 # 2))) as Hlt.
  set (n := Qfloor (x + (1 # 2))) in *.
  split; [| exact Hle].
  assert (Ex : 2 * x == inject_Z (640 - k)).
  { unfold x, INPUT_SIZE, Zminus. rewrite inject_Z_plus, inject_Z_opp.
    change (inject_Z 640) with 640. field. }
  assert (Hz : (640 - k - 1 < 2 * n)%Z).
  { rewrite Zlt_Qlt. unfold Zminus at 1.
    rewrite inject_Z_plus, inject_Z_mult, <- Ex.
    rewrite inject_Z_plus in Hlt.
    change (inject_Z (- (1))) with (- (1)). change (inject_Z 2) with 2.
    change (inject_Z 1) with 1 in Hlt. lra. }
  assert (Hz' : (640 - k <= 2 * n)%Z) by lia.
  rewrite Zle_Qle, inject_Z_mult, <- Ex in Hz'.
  change (inject_Z 2) with 2 in Hz'. lra.
Qed.

(** *** Doubles *)

Lemma pow2_pos (e : Z) : 0 < pow2 e.
Proof. apply Qpower_0_lt. reflexivity. Qed.

Lemma pow2_add (a b : Z) : pow2 (a + b) == pow2 a * pow2 b.
Proof. apply Qpower_plus. discriminate. Qed.

Lemma pow2_opp (a : Z) : pow2 (- a) == / pow2 a.
Proof. apply Qpower_opp. Qed.

Lemma pow2_le (a b : Z) : (a <= b)%Z -> pow2 a <= pow2 b.
Proof. intros H. apply Qpower_le_compat_l; [exact H | discriminate]. Qed.

Lemma pow2_inject (e : Z) : (0 <= e)%Z -> pow2 e == inject_Z (2 ^ e).
Proof. intros H. unfold pow2. rewrite Zpower_Qpower by exact H. reflexivity. Qed.

Lemma binade_le (q : Q) : 0 < q -> pow2 (binade q) <= q.
Proof.
  intros Hq. unfold binade.
  destruct (Qle_bool (pow2 (Z.log2 (Qnum q) - Z.log2 (Zpos (Qden q)))) q) eqn:E;
    [now apply Qle_bool_iff |]. clear E.
  destruct q as [n d]. cbn [Qnum Qden].
  set (a := Z.log2 n). set (b := Z.log2 (Zpos d)).
  assert (Hn : (0 < n)%Z) by (unfold Qlt in Hq; simpl in Hq; lia).
  destruct (Z.log2_spec n Hn) as [Ha _].
  destruct (Z.log2_spec (Zpos d) eq_refl) as [_ Hb].
  fold a in Ha. fold b in Hb.
  assert (Ha0 : (0 <= a)%Z) by apply Z.log2_nonneg.
  assert (Hb0 : (0 <= b)%Z) by apply Z.log2_nonneg.
  replace (a - b - 1)%Z with (a + - (b + 1))%Z by lia.
  rewrite pow2_add, pow2_opp, !pow2_inject by lia.
  rewrite (Qmake_Qdiv n d).
  assert (H1 : 0 < inject_Z (2 ^ (b + 1))).
  { rewrite <- (Zlt_Qlt 0). apply Z.pow_pos_nonneg; lia. }
  assert (H2 : 0 < inject_Z (Zpos d)) by reflexivity.
  apply Qle_shift_div_l; [exact H2 |].
  assert (E1 : inject_Z (2 ^ a) * / inject_Z (2 ^ (b + 1)) * inject_Z (Zpos d)
               == inject_Z (2 ^ a) * inject_Z (Zpos d) / inject_Z (2 ^ (b + 1)))
    by (field; lra).
  rewrite E1. apply Qle_shift_div_r; [exact H1 |].
  rewrite <- !inject_Z_mult, <- Zle_Qle.
  apply Z.mul_le_mono_nonneg; lia.
Qed.

Lemma round_half_even_near (x : Q) :
  Qabs (inject_Z (round_half_even x) - x) <= 1 # 2.
Proof.
  unfold round_half_even.
  pose proof (Qfloor_le x) as Hle. pose proof (Qlt_floor x) as Hlt.
  rewrite inject_Z_plus in Hlt. change (inject_Z 1) with 1 in Hlt.
  apply Qabs_Qle_condition.
  destruct (Qcompare (x - inject_Z (Qfloor x)) (1 # 2)) eqn:E.
  - apply Qeq_alt in E.
    destruct (Z.even (Qfloor x));
      [| rewrite inject_Z_plus; change (inject_Z 1) with 1]; split; lra.
  - apply Qlt_alt in E. split; lra.
  - apply Qgt_alt in E. rewrite inject_Z_plus. change (inject_Z 1) with 1.
    split; lra.
Qed.

(** The error of a rounding in the normal range is at most [2^-prec] times
    the number rounded. *)
Lemma to_binary_error (prec emin : Z) (q : Q) :
  0 < q -> pow2 (emin + prec - 1) <= q ->
  Qabs (to_binary prec emin q - q) <= q * pow2 (- prec).
Proof.
  intros Hq Hnormal.
  destruct q as [[| n | n] d]; try (now compute in Hq).
  unfold to_binary. cbn [Qnum].
  change (Qabs (Zpos n # d)) with (Zpos n # d).
  change (Qle_bool 0 (Zpos n # d)) with true. cbv iota.
  set (q := Zpos n # d) in *.
  set (e := Z.max (binade q - (prec - 1)) emin).
  rewrite Qred_correct.
  pose proof (pow2_pos e) as He.
  pose proof (round_half_even_near (q / pow2 e)) as Hr.
  set (m := inject_Z (round_half_even (q / pow2 e))) in *.
  assert (Hhalf : pow2 e <= q * pow2 (- prec) * 2).
  { assert (E2 : pow2 (- prec) * 2 == pow2 (1 - prec)).
    { replace (1 - prec)%Z with (- prec + 1)%Z by lia. rewrite pow2_add.
      reflexivity. }
    rewrite <- Qmult_assoc, E2.
    unfold e. apply Z.max_case_strong; intros _.
    - replace (binade q - (prec - 1))%Z with (binade q + (1 - prec))%Z by lia.
      rewrite pow2_add. apply Qmult_le_compat_r.
      + apply binade_le, Hq.
      + apply Qlt_le_weak, pow2_pos.
    - replace emin with ((emin + prec - 1) + (1 - prec))%Z at 1 by lia.
      rewrite pow2_add. apply Qmult_le_compat_r; [exact Hnormal |].
      apply Qlt_le_weak, pow2_pos. }
  assert (E3 : m * pow2 e - q == (m - q / pow2 e) * pow2 e) by (field; lra).
  rewrite E3, Qabs_Qmult, (Qabs_pos (pow2 e)) by lra.
  apply Qle_trans with ((1 # 2) * pow2 e).
  - apply Qmult_le_compat_r; [exact Hr | lra].
  - lra.
Qed.

(** A number [x] with [x * D] whole is at a half-integer or at least
    [1 / (2 * D)] away from the next: a number [y] within [2^-41] of [x] is
    rounded to a whole number nearest to [x]. *)
Lemma round_near (x y : Q) (D N : Z) :
  (0 < D < 2 ^ 32)%Z -> x * inject_Z D == inject_Z N ->
  Qabs (y - x) <= 1 # 2199023255552 ->
  exists n : Z,
    Math_round y = inject_Z n
    /\ x - (1 # 2) <= inject_Z n <= x + (1 # 2)
    /\ ((forall k : Z, ~ x == inject_Z k + (1 # 2)) ->
        Math_round y = Math_round x).
Proof.
  intros [HD0 HD1] Hx Hy. apply Qabs_Qle_condition in Hy.
  set (n := Qfloor (y + (1 # 2))).
  pose proof (Qfloor_le (y + (1 # 2))) as Hle.
  pose proof (Qlt_floor (y + (1 # 2))) as Hlt.
  rewrite inject_Z_plus in Hlt. change (inject_Z 1) with 1 in Hlt.
  fold n in Hle, Hlt.
  set (d := inject_Z D) in *.
  assert (Hd0 : 0 < d) by (unfold d; rewrite <- (Zlt_Qlt 0); exact HD0).
  assert (Hd1 : d <= 4294967296).
  { unfold d. change 4294967296 with (inject_Z (2 ^ 32)).
    rewrite <- Zle_Qle. lia. }
  assert (Hgap : forall t : Q, forall T : Z,
             t * 2 * d == inject_Z T -> t <= 1 # 2199023255552 -> t <= 0).
  { intros t T ET Ht.
    destruct (Qlt_le_dec 0 t) as [Hpos | Hok]; [exfalso | exact Hok].
    assert (HT : (0 < T)%Z).
    { rewrite Zlt_Qlt, <- ET. change (inject_Z 0) with 0.
      apply Qmult_lt_0_compat; [lra | exact Hd0]. }
    assert (HT1 : 1 <= inject_Z T).
    { change 1 with (inject_Z 1). rewrite <- Zle_Qle. lia. }
    rewrite <- ET in HT1.
    assert (t * d <= (1 # 2199023255552) * d)
      by (apply Qmult_le_compat_r; lra).
    lra. }
  assert (Hup : inject_Z n <= x + (1 # 2)).
  { assert (H : inject_Z n - (1 # 2) - x <= 0); [| lra].
    apply (Hgap _ (2 * n * D - D - 2 * N)%Z); [| lra].
    unfold Zminus. rewrite !inject_Z_plus, !inject_Z_opp, !inject_Z_mult.
    rewrite <- Hx. fold d. change (inject_Z 2) with 2. ring. }
  assert (Hlow : x - (1 # 2) <= inject_Z n).
  { assert (H : x - (1 # 2) - inject_Z n <= 0); [| lra].
    apply (Hgap _ (2 * N - D - 2 * n * D)%Z); [| lra].
    unfold Zminus. rewrite !inject_Z_plus, !inject_Z_opp, !inject_Z_mult.
    rewrite <- Hx. fold d. change (inject_Z 2) with 2. ring. }
  exists n. split; [reflexivity |]. split; [split; assumption |].
  intros Hnotie.
  destruct (Math_round_spec x) as [m [Em [Hm0 Hm1]]].
  rewrite Em. unfold Math_round. fold n. f_equal.
  assert (Hstrict : x - (1 # 2) < inject_Z n).
  { destruct (Qle_lt_or_eq _ _ Hlow) as [H | H]; [exact H |].
    exfalso. apply (Hnotie n). lra. }
  assert (H1 : (n < m + 1)%Z).
  { rewrite Zlt_Qlt, inject_Z_plus. change (inject_Z 1) with 1. lra. }
  assert (H2 : (m < n + 1)%Z).
  { rewrite Zlt_Qlt, inject_Z_plus. change (inject_Z 1) with 1. lra. }
  lia.
Qed.

(** [to_double] against the primitive floats, on the operations of
    [preprocess]: the quotients [640 / w] for [w] from 1 to 4096, the
    product of each with 1080, and the quotients [byte / 255] of the input
    buffer. *)
Lemma to_double_is_binary64 :
  (forall w : Z, (1 <= w <= 4096)%Z ->
     let scale := PrimFloat.div (float_of_Z 640) (float_of_Z w) in
     is_to_double (640 / inject_Z w) scale = true
     /\ is_to_double (1080 * to_double (640 / inject_Z w))
          (PrimFloat.mul (float_of_Z 1080) scale) = true)
  /\ (forall byte : Z, (0 <= byte <= 255)%Z ->
        is_to_double (inject_Z byte / 255)
          (PrimFloat.div (float_of_Z byte) (float_of_Z 255)) = true).
Proof.
  split.
  - intros w Hw.
    assert (Hall : forallb
              (fun k =>
                 let scale :=
                   PrimFloat.div (float_of_Z 640) (float_of_Z (k + 1)) in
                 is_to_double (640 / inject_Z (k + 1)) scale
                 && is_to_double (1080 * to_double (640 / inject_Z (k + 1)))
                      (PrimFloat.mul (float_of_Z 1080) scale))
              (upto 4096) = true) by (vm_compute; reflexivity).
    rewrite forallb_forall in Hall.
    specialize (Hall (w - 1)%Z (proj2 (upto_In 4096 (w - 1)) ltac:(lia))).
    cbv zeta beta in Hall. replace (w - 1 + 1)%Z with w in Hall by lia.
    apply andb_true_iff in Hall. exact Hall.
  - intros byte Hbyte.
    assert (Hall : forallb
              (fun b => is_to_double (inject_Z b / 255)
                          (PrimFloat.div (float_of_Z b) (float_of_Z 255)))
              (upto 256) = true) by (vm_compute; reflexivity).
    rewrite forallb_forall in Hall.
    apply (Hall byte), upto_In. lia.
Qed.

(** A double in the normal range is within [2^-53] of the number rounded,
    relatively. *)
Lemma to_double_error (q : Q) :
  1 # 8388608 <= q ->
  Qabs (to_double q - q) <= q * (1 # 9007199254740992).
Proof.
  intros Hq.
  assert (E : pow2 (-53) == 1 # 9007199254740992) by reflexivity.
  rewrite <- E. apply (to_binary_error 53 (-1074)); [lra |].
  apply Qle_trans with (pow2 (-23)); [apply pow2_le; lia |].
  assert (E' : pow2 (-23) == 1 # 8388608) by reflexivity.
  rewrite E'. exact Hq.
Qed.

Lemma Qmin_error (a b a' b' eps : Q) :
  0 <= eps <= 1 -> 0 < a -> 0 < b ->
  Qabs (a' - a) <= a * eps -> Qabs (b' - b) <= b * eps ->
  Qabs (Qmin a' b' - Qmin a b) <= Qmin a b * eps.
Proof.
  intros He Ha Hb Ha' Hb'.
  apply Qabs_Qle_condition in Ha'. apply Qabs_Qle_condition in Hb'.
  apply Qabs_Qle_condition.
  destruct (Q.min_spec a b) as [[H E] | [H E]];
  destruct (Q.min_spec a' b') as [[H' E'] | [H' E']];
  rewrite E, E'; split; nra.
Qed.

(** The sides and paddings that the doubles give are whole numbers from 0
    to 640: the subtraction and the halving of lines 135-136 are exact. *)
Lemma pad_exact (n : Z) :
  (0 <= n <= 640)%Z ->
  Math_round (to_double (to_double (INPUT_SIZE - inject_Z n) / 2))
  = Math_round ((INPUT_SIZE - inject_Z n) / 2).
Proof.
  intros Hn.
  assert (Hall : forallb
            (fun n => (Qfloor (to_double (to_double (INPUT_SIZE - inject_Z n) / 2)
                               + (1 # 2))
                       =? Qfloor ((INPUT_SIZE - inject_Z n) / 2 + (1 # 2)))%Z)
            (upto 641) = true) by (vm_compute; reflexivity).
  rewrite forallb_forall in Hall.
  specialize (Hall n (proj2 (upto_In 641 n) ltac:(lia))). cbv beta in Hall.
  unfold Math_round. f_equal. now apply Z.eqb_eq.
Qed.

Section DoubleLetterbox.
Variables width height : Z.
Hypothesis width_range : (0 < width < 2 ^ 32)%Z.
Hypothesis height_range : (0 < height < 2 ^ 32)%Z.

Local Abbreviation w := (inject_Z width).
Local Abbreviation h := (inject_Z height).
Local Abbreviation s := (scale (preprocess width height)).
Local Abbreviation s' := (scale (preprocess_double width height)).
Local Abbreviation eps := (1 # 9007199254740992).

Lemma dimension_range (z : Z) :
  (0 < z < 2 ^ 32)%Z -> 1 <= inject_Z z <= 4294967295.
Proof.
  intros Hz. change 1 with (inject_Z 1).
  change 4294967295 with (inject_Z (2 ^ 32 - 1)).
  rewrite <- !Zle_Qle. lia.
Qed.

Lemma quotient_range (z : Z) :
  (0 < z < 2 ^ 32)%Z -> 5 # 33554432 <= INPUT_SIZE / inject_Z z <= 640.
Proof.
  intros Hz. destruct (dimension_range z Hz) as [H1 H2]. unfold INPUT_SIZE.
  split.
  - apply Qle_shift_div_l; lra.
  - apply Qle_shift_div_r; lra.
Qed.

Lemma scale_range :
  5 # 33554432 <= s /\ w * s <= 640 /\ h * s <= 640.
Proof.
  destruct (dimension_range width width_range) as [Hw _].
  destruct (dimension_range height height_range) as [Hh _].
  destruct (quotient_range width width_range) as [Hqw _].
  destruct (quotient_range height height_range) as [Hqh _].
  unfold preprocess; cbn [scale]. unfold Math_min.
  assert (Ew : w * (INPUT_SIZE / w) == 640)
    by (unfold INPUT_SIZE; field; lra).
  assert (Eh : h * (INPUT_SIZE / h) == 640)
    by (unfold INPUT_SIZE; field; lra).
  pose proof (Q.le_min_l (INPUT_SIZE / w) (INPUT_SIZE / h)) as Hl.
  pose proof (Q.le_min_r (INPUT_SIZE / w) (INPUT_SIZE / h)) as Hr.
  split; [apply Q.min_glb; assumption |]. split.
  - rewrite <- Ew. apply Qmult_le_l; lra.
  - rewrite <- Eh. apply Qmult_le_l; lra.
Qed.

Lemma scale_double_error : Qabs (s' - s) <= s * eps.
Proof.
  destruct (quotient_range width width_range) as [Hqw _].
  destruct (quotient_range height height_range) as [Hqh _].
  unfold preprocess, preprocess_double; cbn [scale]. unfold Math_min.
  apply Qmin_error; try lra; apply to_double_error; lra.
Qed.

(** The product of lines 133-134, as a double, next to the exact one. *)
Lemma side_double_error (z : Z) :
  z = width \/ z = height ->
  Qabs (to_double (inject_Z z * s') - inject_Z z * s) <= 1 # 2199023255552.
Proof.
  intros Hz.
  assert (Hrange : (0 < z < 2 ^ 32)%Z) by (destruct Hz; subst z; assumption).
  destruct (dimension_range z Hrange) as [Hz1 _].
  destruct scale_range as [Hs [Hws Hhs]].
  assert (Hx : inject_Z z * s <= 640) by (destruct Hz; subst z; assumption).
  pose proof scale_double_error as He. apply Qabs_Qle_condition in He.
  set (x := inject_Z z * s) in *. set (u := inject_Z z * s').
  assert (Hu : - (x * eps) <= u - x <= x * eps).
  { unfold u, x. split; nra. }
  assert (Hx0 : 5 # 33554432 <= x) by (unfold x; nra).
  pose proof (to_double_error u ltac:(lra)) as Hy.
  apply Qabs_Qle_condition in Hy. apply Qabs_Qle_condition. split; lra.
Qed.

Lemma side_fraction (z : Z) :
  inject_Z z * s * inject_Z (Z.max width height) == inject_Z (640 * z).
Proof.
  destruct (dimension_range width width_range) as [Hw _].
  destruct (dimension_range height height_range) as [Hh _].
  assert (Es : s == INPUT_SIZE / inject_Z (Z.max width height)).
  { unfold preprocess; cbn [scale]. unfold Math_min.
    apply Z.max_case_strong; intros Hle; rewrite Zle_Qle in Hle.
    - apply Q.min_l. apply Qdiv_le_antitone; [reflexivity | lra | lra | exact Hle].
    - apply Q.min_r. apply Qdiv_le_antitone; [reflexivity | lra | lra | exact Hle]. }
  rewrite Es, inject_Z_mult. unfold INPUT_SIZE. change (inject_Z 640) with 640.
  assert (1 <= inject_Z (Z.max width height))
    by (apply Z.max_case; assumption).
  field. lra.
Qed.

Lemma side_double (z : Z) :
  z = width \/ z = height ->
  exists n : Z,
    Math_round (to_double (inject_Z z * s')) = inject_Z n
    /\ (0 <= n <= 640)%Z
    /\ inject_Z z * s - (1 # 2) <= inject_Z n <= inject_Z z * s + (1 # 2)
    /\ ((forall k : Z, ~ inject_Z z * s == inject_Z k + (1 # 2)) ->
        Math_round (to_double (inject_Z z * s')) = Math_round (inject_Z z * s)).
Proof.
  intros Hz.
  assert (Hrange : (0 < z < 2 ^ 32)%Z) by (destruct Hz; subst z; assumption).
  destruct (dimension_range z Hrange) as [Hz1 _].
  destruct scale_range as [Hs [Hws Hhs]].
  assert (Hx : inject_Z z * s <= 640) by (destruct Hz; subst z; assumption).
  assert (Hx0 : 0 < inject_Z z * s) by nra.
  destruct (round_near (inject_Z z * s) (to_double (inject_Z z * s'))
              (Z.max width height) (640 * z))
    as [n [En [[Hlo Hhi] Hsame]]].
  - lia.
  - apply side_fraction.
  - apply side_double_error, Hz.
  - exists n. split; [exact En |]. split; [| split; [split; assumption | exact Hsame]].
    assert (H0 : (-1 < n)%Z).
    { rewrite Zlt_Qlt. change (inject_Z (-1)) with (-1). lra. }
    assert (H1 : (n < 641)%Z).
    { rewrite Zlt_Qlt. change (inject_Z 641) with 641. lra. }
    lia.
Qed.
End DoubleLetterbox.

(** What the doubles give, next to the exact letterbox. *)
Lemma preprocess_double_spec (width height : Z) :
  (0 < width < 2 ^ 32)%Z -> (0 < height < 2 ^ 32)%Z ->
  let p := preprocess_double width height in
  let q := preprocess width height in
  Qabs (scale p - scale q) <= scale q * (1 # 9007199254740992)
  /\ (exists n : Z,
        newW p = inject_Z n /\ (0 <= n <= 640)%Z
        /\ inject_Z width * scale q - (1 # 2) <= inject_Z n
           <= inject_Z width * scale q + (1 # 2))
  /\ (exists n : Z,
        newH p = inject_Z n /\ (0 <= n <= 640)%Z
        /\ inject_Z height * scale q - (1 # 2) <= inject_Z n
           <= inject_Z height * scale q + (1 # 2))
  /\ padX p = Math_round ((INPUT_SIZE - newW p) / 2)
  /\ padY p = Math_round ((INPUT_SIZE - newH p) / 2)
  /\ ((forall k : Z, ~ inject_Z width * scale q == inject_Z k + (1 # 2)) ->
      newW p = newW q /\ padX p = padX q)
  /\ ((forall k : Z, ~ inject_Z height * scale q == inject_Z k + (1 # 2)) ->
      newH p = newH q /\ padY p = padY q).
Proof.
  intros Hw Hh. cbv zeta.
  destruct (side_double width height Hw Hh width (or_introl eq_refl))
    as [n [En [Hn [Hnear Hsame]]]].
  destruct (side_double width height Hw Hh height (or_intror eq_refl))
    as [m [Em [Hm [Hmnear Hmsame]]]].
  assert (EW : newW (preprocess_double width height) = inject_Z n) by exact En.
  assert (EH : newH (preprocess_double width height) = inject_Z m) by exact Em.
  assert (EX : padX (preprocess_double width height)
               = Math_round ((INPUT_SIZE - inject_Z n) / 2)).
  { transitivity
      (Math_round
         (to_double
            (to_double (INPUT_SIZE - newW (preprocess_double width height))
             / 2))); [reflexivity |].
    rewrite EW. apply pad_exact, Hn. }
  assert (EY : padY (preprocess_double width height)
               = Math_round ((INPUT_SIZE - inject_Z m) / 2)).
  { transitivity
      (Math_round
         (to_double
            (to_double (INPUT_SIZE - newH (preprocess_double width height))
             / 2))); [reflexivity |].
    rewrite EH. apply pad_exact, Hm. }
  split; [apply scale_double_error; assumption |].
  split; [exists n; repeat split; try assumption; apply Hn || apply Hnear |].
  split; [exists m; repeat split; try assumption; apply Hm || apply Hmnear |].
  split; [now rewrite EX, EW |]. split; [now rewrite EY, EH |].
  split.
  - intros Hnotie. specialize (Hsame Hnotie).
    assert (E : newW (preprocess_double width height)
                = newW (preprocess width height)) by exact Hsame.
    split; [exact E |].
    rewrite EX, <- EW, E. reflexivity.
  - intros Hnotie. specialize (Hmsame Hnotie).
    assert (E : newH (preprocess_double width height)
                = newH (preprocess width height)) by exact Hmsame.
    split; [exact E |].
    rewrite EY, <- EH, E. reflexivity.
Qed.

(** The image of 9984 x 5577 pixels: the exact product of line 134 is
    357.5 and rounds to 358, the product of the doubles is
    357.49999999999994 and rounds to 357. *)
Example preprocess_halfway :
  inject_Z 5577 * scale (preprocess 9984 5577) == 357 + (1 # 2)
  /\ newH (preprocess 9984 5577) = 358
  /\ padY (preprocess 9984 5577) = 141
  /\ to_double (inject_Z 5577 * scale (preprocess_double 9984 5577))
     < 357 + (1 # 2)
  /\ newH (preprocess_double 9984 5577) = 357
  /\ padY (preprocess_double 9984 5577) = 142.
Proof. repeat split; vm_compute; reflexivity. Qed.

(** C9. For an image of positive width and height the letterbox is
    [scale = min(S/srcW, S/srcH)], [newW = round(srcW*scale)],
    [newH = round(srcH*scale)], [padX = round((S-newW)/2)] and
    [padY = round((S-newH)/2)] with [S = 640].  Here [min] is the smaller
    of its arguments; the rounded sides are whole numbers at distance 1/2
    at most from the products; and the paddings, halves of whole numbers,
    are rounded to the nearest whole number, a half upwards.  This holds of
    [preprocess] in exact arithmetic and, for dimensions below [2^32], of
    the doubles of the source: there [scale] is within [2^-53] of the exact
    quotient, relatively, the sides are whole numbers from 0 to 640 at
    distance 1/2 at most from the exact products, and sides and paddings
    are those of the exact letterbox unless a product is halfway between
    two whole numbers.  A 1920x1080 image gets [scale = 1/3] (the double
    next to it; within 0.001 of 0.333), [newW = 640], [newH = 360],
    [padX = 0] and [padY = 140]. *)
Theorem preprocess_letterbox :
  (forall width height : Z,
     (0 < width)%Z -> (0 < height)%Z ->
     let p := preprocess width height in
     let srcW := inject_Z width in
     let srcH := inject_Z height in
     scale p == Math_min (INPUT_SIZE / srcW) (INPUT_SIZE / srcH)
     /\ (srcH <= srcW -> scale p == INPUT_SIZE / srcW)
     /\ (srcW <= srcH -> scale p == INPUT_SIZE / srcH)
     /\ (exists n : Z,
           newW p = inject_Z n
           /\ srcW * scale p - (1 # 2) <= inject_Z n <= srcW * scale p + (1 # 2))
     /\ (exists n : Z,
           newH p = inject_Z n
           /\ srcH * scale p - (1 # 2) <= inject_Z n <= srcH * scale p + (1 # 2))
     /\ padX p = Math_round ((INPUT_SIZE - newW p) / 2)
     /\ padY p = Math_round ((INPUT_SIZE - newH p) / 2)
     /\ (exists n : Z,
           padX p = inject_Z n
           /\ (INPUT_SIZE - newW p) / 2 <= inject_Z n
              <= (INPUT_SIZE - newW p) / 2 + (1 # 2))
     /\ (exists n : Z,
           padY p = inject_Z n
           /\ (INPUT_SIZE - newH p) / 2 <= inject_Z n
              <= (INPUT_SIZE - newH p) / 2 + (1 # 2)))
  /\ (forall width height : Z,
        (0 < width < 2 ^ 32)%Z -> (0 < height < 2 ^ 32)%Z ->
        let p := preprocess_double width height in
        let srcW := inject_Z width in
        let srcH := inject_Z height in
        let exact := Math_min (INPUT_SIZE / srcW) (INPUT_SIZE / srcH) in
        scale p = Math_min (to_double (INPUT_SIZE / srcW))
                           (to_double (INPUT_SIZE / srcH))
        /\ Qabs (scale p - exact) <= exact * (1 # 9007199254740992)
        /\ newW p = Math_round (to_double (srcW * scale p))
        /\ newH p = Math_round (to_double (srcH * scale p))
        /\ (exists n : Z,
              newW p = inject_Z n /\ (0 <= n <= 640)%Z
              /\ srcW * exact - (1 # 2) <= inject_Z n <= srcW * exact + (1 # 2))
        /\ (exists n : Z,
              newH p = inject_Z n /\ (0 <= n <= 640)%Z
              /\ srcH * exact - (1 # 2) <= inject_Z n <= srcH * exact + (1 # 2))
        /\ padX p = Math_round ((INPUT_SIZE - newW p) / 2)
        /\ padY p = Math_round ((INPUT_SIZE - newH p) / 2)
        /\ ((forall k : Z, ~ srcW * exact == inject_Z k + (1 # 2)) ->
            newW p = newW (preprocess width height)
            /\ padX p = padX (preprocess width height))
        /\ ((forall k : Z, ~ srcH * exact == inject_Z k + (1 # 2)) ->
            newH p = newH (preprocess width height)
            /\ padY p = padY (preprocess width height)))
  /\ (let p := preprocess 1920 1080 in
      scale p == 1 # 3 /\ Qabs (scale p - 0.333) < 0.001
      /\ newW p == 640 /\ newH p == 360 /\ padX p == 0 /\ padY p == 140)
  /\ (let p := preprocess_double 1920 1080 in
      scale p = to_double (1 # 3) /\ Qabs (scale p - 0.333) < 0.001
      /\ newW p == 640 /\ newH p == 360 /\ padX p == 0 /\ padY p == 140).
Proof.
  split; [| split; [| split]].
  - intros width height Hw Hh. cbv zeta.
    set (W := inject_Z width). set (H := inject_Z height).
    assert (HW : 0 < W) by (unfold W; rewrite <- (Zlt_Qlt 0); exact Hw).
    assert (HH : 0 < H) by (unfold H; rewrite <- (Zlt_Qlt 0); exact Hh).
    assert (Hinv : H <= W <-> INPUT_SIZE / W <= INPUT_SIZE / H)
      by (apply Qdiv_le_antitone; [reflexivity | assumption | assumption]).
    assert (Hinv' : W <= H <-> INPUT_SIZE / H <= INPUT_SIZE / W)
      by (apply Qdiv_le_antitone; [reflexivity | assumption | assumption]).
    unfold preprocess; cbn [scale newW newH padX padY]. fold W H.
    split; [reflexivity |].
    split; [intros Hle; apply Q.min_l, Hinv, Hle |].
    split; [intros Hle; apply Q.min_r, Hinv', Hle |].
    split; [apply Math_round_nearest |].
    split; [apply Math_round_nearest |].
    split; [reflexivity |]. split; [reflexivity |].
    split.
    + destruct (Math_round_spec (W * Math_min (INPUT_SIZE / W) (INPUT_SIZE / H)))
        as [k [Ek _]].
      rewrite Ek. apply Math_round_half.
    + destruct (Math_round_spec (H * Math_min (INPUT_SIZE / W) (INPUT_SIZE / H)))
        as [k [Ek _]].
      rewrite Ek. apply Math_round_half.
  - intros width height Hw Hh. cbv zeta.
    destruct (preprocess_double_spec width height Hw Hh)
      as [Hs [HnW [HnH [HpX [HpY [HsameW HsameH]]]]]].
    split; [reflexivity |]. split; [exact Hs |].
    split; [reflexivity |]. split; [reflexivity |].
    split; [exact HnW |]. split; [exact HnH |].
    split; [exact HpX |]. split; [exact HpY |].
    split; [exact HsameW | exact HsameH].
  - cbv zeta. repeat split; vm_compute; reflexivity.
  - cbv zeta. repeat split; vm_compute; reflexivity.
Qed.

(** C9 at the image of 9984 x 5577 pixels, for the doubles: [newH] is a
    whole number at distance 1/2 at most from the exact product 357.5, and
    [padY] is the rounded half of what is left. *)
Lemma preprocess_letterbox_witness :
  let p := preprocess_double 9984 5577 in
  let exact := Math_min (INPUT_SIZE / 9984) (INPUT_SIZE / 5577) in
  (exists n : Z,
      newH p = inject_Z n /\ (0 <= n <= 640)%Z
      /\ 5577 * exact - (1 # 2) <= inject_Z n <= 5577 * exact + (1 # 2))
  /\ padY p = Math_round ((INPUT_SIZE - newH p) / 2).
Proof.
  cbv zeta.
  destruct (proj1 (proj2 preprocess_letterbox) 9984%Z 5577%Z)
    as [_ [_ [_ [_ [_ [HnH [_ [HpY _]]]]]]]]; try (simpl; lia).
  split; [exact HnH | exact HpY].
Defined.

(** For an image with positive dimensions the scale is positive, the scaled
    image fits the square and the paddings are not negative. *)
Lemma preprocess_fits (width height : Z) :
  (0 < width)%Z -> (0 < height)%Z ->
  let p := preprocess width height in
  0 < scale p
  /\ inject_Z width * scale p <= INPUT_SIZE
  /\ inject_Z height * scale p <= INPUT_SIZE
  /\ newW p <= INPUT_SIZE /\ newH p <= INPUT_SIZE
  /\ 0 <= padX p /\ 0 <= padY p.
Proof.
  intros Hw Hh. cbv zeta. unfold preprocess. simpl.
  set (W := inject_Z width). set (H := inject_Z height).
  assert (HW : 0 < W) by (unfold W; rewrite <- (Zlt_Qlt 0); exact Hw).
  assert (HH : 0 < H) by (unfold H; rewrite <- (Zlt_Qlt 0); exact Hh).
  set (s := Math_min (INPUT_SIZE / W) (INPUT_SIZE / H)).
  assert (HsW : s <= INPUT_SIZE / W) by apply Q.le_min_l.
  assert (HsH : s <= INPUT_SIZE / H) by apply Q.le_min_r.
  assert (Hs : 0 < s).
  { unfold s, Math_min. apply Q.min_glb_lt; apply Qlt_shift_div_l;
      try assumption; reflexivity. }
  assert (HfitW : W * s <= INPUT_SIZE).
  { apply Qle_trans with (W * (INPUT_SIZE / W)).
    - apply Qmult_le_l; assumption.
    - rewrite Qmult_div_r; [apply Qle_refl | lra]. }
  assert (HfitH : H * s <= INPUT_SIZE).
  { apply Qle_trans with (H * (INPUT_SIZE / H)).
    - apply Qmult_le_l; assumption.
    - rewrite Qmult_div_r; [apply Qle_refl | lra]. }
  assert (Hround : forall x, x <= INPUT_SIZE -> Math_round x <= INPUT_SIZE).
  { intros x Hx. unfold Math_round, INPUT_SIZE in *.
    change 640 with (inject_Z 640). rewrite <- Zle_Qle.
    change 640%Z with (Qfloor (640 + (1 # 2))).
    apply Qfloor_resp_le. lra. }
  assert (Hpad : forall n, n <= INPUT_SIZE ->
                   0 <= Math_round ((INPUT_SIZE - n) / 2)).
  { intros n Hn. unfold Math_round.
    change 0 with (inject_Z 0). rewrite <- Zle_Qle.
    change 0%Z with (Qfloor (1 # 2)).
    apply Qfloor_resp_le.
    assert (0 <= (INPUT_SIZE - n) / 2) by (apply Qle_shift_div_l; lra).
    lra. }
  repeat split; auto.
Qed.

(** ** [nms] *)

Lemma filter_length_lt {A : Type} (f : A -> bool) (l : list A) (n : nat) :
  (S (List.length l) <= S n)%nat -> (List.length (filter f l) <= n)%nat.
Proof.
  intros H. pose proof (filter_length_le f l). lia.
Qed.

Lemma filter_all {A : Type} (f : A -> bool) (l : list A) :
  Forall (fun x => f x = true) l -> filter f l = l.
Proof.
  induction 1 as [| x l Hx Hl IH]; simpl; [reflexivity |].
  now rewrite Hx, IH.
Qed.

(** The loop only appends to [result]. *)
Lemma nms_loop_result (threshold : Q) (boxes result : list Detection) :
  nms_loop threshold boxes result = result ++ suppress threshold boxes.
Proof.
  unfold suppress.
  remember (List.length boxes) as n eqn:En.
  assert (Hn : (List.length boxes <= n)%nat) by lia. clear En.
  revert boxes result Hn.
  induction n as [| n IH]; intros [| current rest] result Hn;
    simp nms_loop; try now rewrite app_nil_r.
  - simpl in Hn. lia.
  - simpl in Hn.
    rewrite IH by (apply filter_length_lt; exact Hn).
    rewrite (IH _ [current]) by (apply filter_length_lt; exact Hn).
    now rewrite app_assoc.
Qed.

Lemma suppress_nil (threshold : Q) : suppress threshold [] = [].
Proof. unfold suppress. now simp nms_loop. Qed.

Lemma suppress_cons (threshold : Q) (current : Detection) (rest : list Detection) :
  suppress threshold (current :: rest)
  = current :: suppress threshold (filter (stays threshold current) rest).
Proof.
  unfold suppress at 1. simp nms_loop. now rewrite nms_loop_result.
Qed.

Lemma nms_unfold (boxes : list Detection) (threshold : Q) :
  nms boxes threshold = suppress threshold (Array_sort by_score_desc boxes).
Proof. reflexivity. Qed.

Lemma nms_nil (threshold : Q) : nms [] threshold = [].
Proof. rewrite nms_unfold. simpl. apply suppress_nil. Qed.

(** Induction on the rounds of the loop. *)
Lemma suppress_ind (threshold : Q) (P : list Detection -> list Detection -> Prop) :
  P [] [] ->
  (forall current rest,
      P (filter (stays threshold current) rest)
        (suppress threshold (filter (stays threshold current) rest)) ->
      P (current :: rest)
        (current :: suppress threshold (filter (stays threshold current) rest))) ->
  forall boxes, P boxes (suppress threshold boxes).
Proof.
  intros Hnil Hcons boxes.
  remember (List.length boxes) as n eqn:En.
  assert (Hn : (List.length boxes <= n)%nat) by lia. clear En.
  revert boxes Hn.
  induction n as [| n IH]; intros [| current rest] Hn.
  - now rewrite suppress_nil.
  - simpl in Hn. lia.
  - now rewrite suppress_nil.
  - rewrite suppress_cons. apply Hcons, IH, filter_length_lt, Hn.
Qed.

Lemma subseq_refl {A : Type} (l : list A) : subseq l l.
Proof. induction l; constructor; assumption. Qed.

Lemma subseq_trans {A : Type} (l1 l2 l3 : list A) :
  subseq l1 l2 -> subseq l2 l3 -> subseq l1 l3.
Proof.
  intros H12 H23. revert l1 H12.
  induction H23 as [| x l2 l3 H23 IH | x l2 l3 H23 IH]; intros l1 H12.
  - exact H12.
  - inversion H12; subst; constructor; apply IH; assumption.
  - constructor. apply IH, H12.
Qed.

Lemma subseq_filter {A : Type} (f : A -> bool) (l : list A) :
  subseq (filter f l) l.
Proof.
  induction l as [| x l IH]; simpl; [constructor |].
  destruct (f x); constructor; exact IH.
Qed.

Lemma subseq_incl {A : Type} (l1 l2 : list A) : subseq l1 l2 -> incl l1 l2.
Proof.
  induction 1 as [| x l1 l2 H IH | x l1 l2 H IH]; intros y Hy.
  - exact Hy.
  - destruct Hy as [-> | Hy]; [now left | right; apply IH, Hy].
  - right. apply IH, Hy.
Qed.

(** What a subsequence leaves out. *)
Lemma subseq_rest {A : Type} (l1 l2 : list A) :
  subseq l1 l2 -> exists dropped, Permutation l2 (l1 ++ dropped).
Proof.
  induction 1 as [| x l1 l2 H [dropped IH] | x l1 l2 H [dropped IH]].
  - now exists [].
  - exists dropped. simpl. now constructor.
  - exists (x :: dropped). rewrite <- Permutation_middle. now constructor.
Qed.

Lemma subseq_StronglySorted {A : Type} (R : A -> A -> Prop) (l1 l2 : list A) :
  subseq l1 l2 -> StronglySorted R l2 -> StronglySorted R l1.
Proof.
  induction 1 as [| x l1 l2 H IH | x l1 l2 H IH]; intros Hs.
  - exact Hs.
  - apply StronglySorted_inv in Hs as [Hs Hx]. constructor; [apply IH, Hs |].
    rewrite Forall_forall in *. intros y Hy. apply Hx, (subseq_incl _ _ H), Hy.
  - apply StronglySorted_inv in Hs as [Hs _]. apply IH, Hs.
Qed.

Lemma suppress_subseq (threshold : Q) (boxes : list Detection) :
  subseq (suppress threshold boxes) boxes.
Proof.
  apply (suppress_ind threshold (fun boxes out => subseq out boxes)).
  - constructor.
  - intros current rest IH. constructor.
    eapply subseq_trans; [exact IH | apply subseq_filter].
Qed.

Section SortingFacts.
Context {A : Type}.
Variable comparefn : A -> A -> Q.

Lemma sort_insert_perm (x : A) (l : list A) :
  Permutation (sort_insert comparefn x l) (x :: l).
Proof.
  induction l as [| y l IH]; simpl; [reflexivity |].
  destruct (Qltb 0 (comparefn x y)); [| reflexivity].
  rewrite IH. apply perm_swap.
Qed.

Lemma Array_sort_perm (l : list A) : Permutation (Array_sort comparefn l) l.
Proof.
  induction l as [| x l IH]; simpl; [reflexivity |].
  rewrite sort_insert_perm. now constructor.
Qed.

(** A list in which no element has to move behind a later one is left as
    it is. *)
Lemma Array_sort_sorted_id (l : list A) :
  StronglySorted (fun x y => Qltb 0 (comparefn x y) = false) l ->
  Array_sort comparefn l = l.
Proof.
  induction 1 as [| x l Hs IH Hx]; simpl; [reflexivity |].
  rewrite IH. destruct l as [| y l']; simpl; [reflexivity |].
  apply Forall_inv in Hx. now rewrite Hx.
Qed.
End SortingFacts.

Lemma by_score_desc_false (a b : Detection) :
  Qltb 0 (by_score_desc a b) = false <-> score_desc a b.
Proof.
  rewrite Qltb_false. unfold by_score_desc, score_desc. split; lra.
Qed.

Lemma sort_insert_score_desc (x : Detection) (l : list Detection) :
  StronglySorted score_desc l ->
  StronglySorted score_desc (sort_insert by_score_desc x l).
Proof.
  induction 1 as [| y l Hs IH Hy]; simpl.
  - repeat constructor.
  - destruct (Qltb 0 (by_score_desc x y)) eqn:E.
    + apply Qltb_true in E. unfold by_score_desc in E.
      constructor; [exact IH |].
      rewrite Forall_forall in *. intros z Hz.
      apply (Permutation_in _ (sort_insert_perm by_score_desc x l)) in Hz.
      destruct Hz as [<- | Hz]; [unfold score_desc; lra | apply Hy, Hz].
    + apply by_score_desc_false in E.
      constructor; [constructor; assumption |].
      constructor; [exact E |].
      rewrite Forall_forall in *. intros z Hz.
      specialize (Hy z Hz). unfold score_desc in *. lra.
Qed.

(** Line 84 leaves the boxes in the order of descending scores. *)
Lemma Array_sort_score_desc (l : list Detection) :
  StronglySorted score_desc (Array_sort by_score_desc l).
Proof.
  induction l as [| x l IH]; simpl; [constructor |].
  apply sort_insert_score_desc, IH.
Qed.

Lemma score_desc_sorted_id (l : list Detection) :
  StronglySorted score_desc l -> Array_sort by_score_desc l = l.
Proof.
  intros Hs. apply Array_sort_sorted_id.
  induction Hs as [| x l Hs IH Hx]; constructor; [exact IH |].
  rewrite Forall_forall in *. intros y Hy.
  apply by_score_desc_false, Hx, Hy.
Qed.

Lemma suppress_stays (threshold : Q) (current : Detection) (rest : list Detection) :
  Forall (fun b => stays threshold current b = true)
    (suppress threshold (filter (stays threshold current) rest)).
Proof.
  rewrite Forall_forall. intros b Hb.
  apply (subseq_incl _ _ (suppress_subseq threshold _)) in Hb.
  apply filter_In in Hb. tauto.
Qed.

Lemma suppress_idempotent (threshold : Q) (boxes : list Detection) :
  suppress threshold (suppress threshold boxes) = suppress threshold boxes.
Proof.
  apply (suppress_ind threshold (fun _ out => suppress threshold out = out)).
  - apply suppress_nil.
  - intros current rest IH. rewrite suppress_cons.
    rewrite (filter_all _ _ (suppress_stays threshold current rest)).
    now rewrite IH.
Qed.

Lemma stays_apart (threshold : Q) (current b : Detection) :
  stays threshold current b = true -> apart threshold current b.
Proof.
  unfold stays, apart. intros H. apply Qltb_true in H. split; [exact H |].
  assert (E : iou b current == iou current b).
  { rewrite !iou_unfold, (interArea_sym b current).
    apply Qmult_comp; [reflexivity |]. apply Qinv_comp. ring. }
  now rewrite E.
Qed.

Lemma suppress_apart (threshold : Q) (boxes : list Detection) :
  ForallOrdPairs (apart threshold) (suppress threshold boxes).
Proof.
  apply (suppress_ind threshold (fun _ out => ForallOrdPairs (apart threshold) out)).
  - constructor.
  - intros current rest IH. constructor; [| exact IH].
    eapply Forall_impl; [| apply suppress_stays].
    intros b. apply stays_apart.
Qed.

(** The survivors keep the order of descending scores. *)
Lemma nms_score_desc (boxes : list Detection) (threshold : Q) :
  StronglySorted score_desc (nms boxes threshold).
Proof.
  rewrite nms_unfold.
  apply (subseq_StronglySorted _ _ _ (suppress_subseq threshold _)),
    Array_sort_score_desc.
Qed.

(** C3. The output of [nms] is drawn from its input: every output detection
    is an input detection, and the input is the output together with the
    detections dropped.  [nms] applied to its own output with the same
    threshold returns it unchanged, and any two detections of the output
    have an IoU below the threshold, in either order of the arguments. *)
Theorem nms_subset_idempotent_apart (boxes : list Detection) (threshold : Q) :
  (incl (nms boxes threshold) boxes
   /\ exists dropped, Permutation boxes (nms boxes threshold ++ dropped))
  /\ nms (nms boxes threshold) threshold = nms boxes threshold
  /\ ForallOrdPairs (apart threshold) (nms boxes threshold).
Proof.
  pose proof (nms_score_desc boxes threshold) as Hsorted.
  rewrite !nms_unfold in *.
  pose proof (suppress_subseq threshold (Array_sort by_score_desc boxes)) as Hsub.
  pose proof (Array_sort_perm by_score_desc boxes) as Hperm.
  split; [split |]; [| | split].
  - intros d Hd. apply (Permutation_in _ Hperm), (subseq_incl _ _ Hsub), Hd.
  - destruct (subseq_rest _ _ Hsub) as [dropped Hd].
    exists dropped. now rewrite <- Hd, Hperm.
  - rewrite (score_desc_sorted_id _ Hsorted). apply suppress_idempotent.
  - apply suppress_apart.
Qed.

(** Two boxes with scores 0.9 and 0.6 and an IoU of 0.8 at the threshold
    0.5: only the box with score 0.9 is kept. *)
Example nms_keeps_the_best :
  let a := mkDetection 0 0 10 10 0.6 1 in
  let b := mkDetection 0 0 10 8 0.9 1 in
  Qabs (iou a b - 0.8) < 0.000001 /\ nms [a; b] 0.5 = [b].
Proof.
  cbv zeta. split; vm_compute; reflexivity.
Qed.

(** A box that is dropped was met by a box that is kept. *)
Lemma suppress_covers (threshold : Q) (boxes : list Detection) :
  StronglySorted score_desc boxes ->
  forall d, In d boxes ->
    In d (suppress threshold boxes)
    \/ exists k, In k (suppress threshold boxes)
                 /\ score d <= score k /\ threshold <= iou k d.
Proof.
  apply (suppress_ind threshold
           (fun boxes out =>
              StronglySorted score_desc boxes ->
              forall d, In d boxes ->
                In d out
                \/ exists k, In k out /\ score d <= score k
                             /\ threshold <= iou k d)).
  - intros _ d [].
  - intros current rest IH Hs d [<- | Hd]; [left; now left |].
    apply StronglySorted_inv in Hs as [Hrest Hcur].
    destruct (stays threshold current d) eqn:E.
    + assert (Hf : In d (filter (stays threshold current) rest))
        by (apply filter_In; now split).
      destruct (IH (subseq_StronglySorted _ _ _ (subseq_filter _ rest) Hrest)
                  d Hf) as [Hin | [k [Hk Hrel]]].
      * left. now right.
      * right. exists k. split; [now right | exact Hrel].
    + right. exists current. split; [now left |]. split.
      * rewrite Forall_forall in Hcur. apply (Hcur d Hd).
      * apply Qltb_false, E.
Qed.

Lemma nms_covers (boxes : list Detection) (threshold : Q) (d : Detection) :
  In d boxes ->
  In d (nms boxes threshold)
  \/ exists k, In k (nms boxes threshold)
               /\ score d <= score k /\ threshold <= iou k d.
Proof.
  intros Hd. rewrite nms_unfold.
  apply suppress_covers; [apply Array_sort_score_desc |].
  apply (Permutation_in _ (Permutation_sym (Array_sort_perm by_score_desc boxes))),
    Hd.
Qed.

Lemma nms_In (boxes : list Detection) (threshold : Q) (d : Detection) :
  In d (nms boxes threshold) -> In d boxes.
Proof.
  rewrite nms_unfold. intros Hd.
  apply (subseq_incl _ _ (suppress_subseq threshold _)) in Hd.
  apply (Permutation_in _ (Array_sort_perm by_score_desc boxes)), Hd.
Qed.

Lemma nms_empty_iff (boxes : list Detection) (threshold : Q) :
  nms boxes threshold = [] <-> boxes = [].
Proof.
  split; [| intros ->; apply nms_nil].
  rewrite nms_unfold. intros E.
  pose proof (Array_sort_perm by_score_desc boxes) as Hperm.
  destruct (Array_sort by_score_desc boxes) as [| top sorted].
  - now apply Permutation_nil in Hperm.
  - rewrite suppress_cons in E. discriminate E.
Qed.

(** ** The class scan *)

Lemma fold_left_ext_in {A B : Type} (f g : A -> B -> A) (l : list B) (a : A) :
  (forall x s, In x l -> f s x = g s x) -> fold_left f l a = fold_left g l a.
Proof.
  revert a. induction l as [| x l IH]; intros a H; simpl; [reflexivity |].
  rewrite (H x a (or_introl eq_refl)). apply IH.
  intros y s Hy. apply H. now right.
Qed.

Section ClassScan.
Variable cfg : Config.
Variable data : list Q.
Variables numClasses numPreds i : Z.

Lemma scanned_nonneg (n : Z) (best : Q * Z) :
  scanned data numPreds i n best -> 0 <= fst best.
Proof.
  intros [_ [[_ E] | [_ [_ [H _]]]]]; [rewrite E |]; lra.
Qed.

Lemma scanned_step (n : Z) (best : Q * Z) :
  (0 <= n)%Z -> scanned data numPreds i n best ->
  scanned data numPreds i (n + 1) (scan_class data numPreds i best n).
Proof.
  intros Hn Hs. pose proof (scanned_nonneg n best Hs) as Hb.
  destruct Hs as [Hub Hfirst].
  assert (Hsplit : forall c, (0 <= c < n + 1)%Z -> (0 <= c < n)%Z \/ c = n)
    by (intros c Hc; lia).
  unfold scan_class.
  destruct (score_of data numPreds i n) as [s |] eqn:Es.
  - destruct (Qltb (fst best) s) eqn:Elt.
    + apply Qltb_true in Elt. split; simpl.
      * intros c v Hc Hv. destruct (Hsplit c Hc) as [Hc' | ->].
        -- specialize (Hub c v Hc' Hv). lra.
        -- rewrite Es in Hv. injection Hv as <-. lra.
      * right. split; [lia |]. split; [exact Es |]. split; [lra |].
        intros c v Hc Hv. specialize (Hub c v Hc Hv). lra.
    + apply Qltb_false in Elt. split.
      * intros c v Hc Hv. destruct (Hsplit c Hc) as [Hc' | ->].
        -- apply (Hub c v Hc' Hv).
        -- rewrite Es in Hv. injection Hv as <-. exact Elt.
      * destruct Hfirst as [Hinit | [Hr Hrest]]; [left; exact Hinit |].
        right. split; [lia | exact Hrest].
  - split.
    + intros c v Hc Hv. destruct (Hsplit c Hc) as [Hc' | ->].
      * apply (Hub c v Hc' Hv).
      * rewrite Es in Hv. discriminate Hv.
    + destruct Hfirst as [Hinit | [Hr Hrest]]; [left; exact Hinit |].
      right. split; [lia | exact Hrest].
Qed.

Lemma scanned_upto (n : nat) :
  scanned data numPreds i (Z.of_nat n)
    (fold_left (scan_class data numPreds i) (upto (Z.of_nat n)) (0, (-1)%Z)).
Proof.
  induction n as [| n IH].
  - simpl. split; [intros c v Hc; lia | left; split; reflexivity].
  - rewrite Nat2Z.inj_succ, <- Z.add_1_r, upto_succ by lia.
    rewrite fold_left_app. simpl. apply scanned_step; [lia | exact IH].
Qed.

Lemma best_class_scanned :
  scanned data numPreds i (channels cfg numClasses)
    (best_class cfg data numClasses numPreds i).
Proof.
  unfold best_class.
  destruct (Z.le_gt_cases 0 (channels cfg numClasses)) as [Hn | Hn].
  - rewrite <- (Z2Nat.id _ Hn). apply scanned_upto.
  - rewrite upto_nonpos by lia. simpl.
    split; [intros c v Hc; lia | left; split; reflexivity].
Qed.
End ClassScan.

(** C6 (as amended).  For prediction [i] the scan reads the scores at the
    flat indices [i + (4+c)*numPreds] of exactly the channels
    [0 <= c < min(numClasses, CLASSES.length)]: its result depends on no
    other entry.  The running best starts at score 0 with class -1 and is
    replaced only by a strictly greater score.  So the score returned
    bounds every scanned score; when some scanned score is positive, it is
    the greatest scanned score and the class returned is the first channel
    that holds it, every earlier channel being strictly smaller; and when
    every scanned score is at most 0, or none is scanned, the result is
    score 0 with class -1.  The prediction loop runs the scan with
    [numClasses = numAttrs - 4]. *)
Theorem best_class_first_maximum
    (cfg : Config) (output : Tensor) (numClasses numPreds i : Z) :
  let n := Z.min numClasses (Z.of_nat (List.length (classes cfg))) in
  let score_at c := data_at (data output) (i + (4 + c) * numPreds) in
  let bestScore := fst (best_class cfg (data output) numClasses numPreds i) in
  let bestClass := snd (best_class cfg (data output) numClasses numPreds i) in
  (forall c v, (0 <= c < n)%Z -> score_at c = Some v -> v <= bestScore)
  /\ ((exists c v, (0 <= c < n)%Z /\ score_at c = Some v /\ 0 < v) ->
      (0 <= bestClass < n)%Z
      /\ score_at bestClass = Some bestScore
      /\ 0 < bestScore
      /\ forall c v, (0 <= c < bestClass)%Z -> score_at c = Some v ->
                     v < bestScore)
  /\ ((forall c v, (0 <= c < n)%Z -> score_at c = Some v -> v <= 0) ->
      bestScore = 0 /\ bestClass = (-1)%Z)
  /\ (forall data' : list Q,
        (forall c, (0 <= c < n)%Z ->
                   data_at data' (i + (4 + c) * numPreds) = score_at c) ->
        best_class cfg data' numClasses numPreds i
        = best_class cfg (data output) numClasses numPreds i)
  /\ (forall batch numAttrs imgWidth imgHeight scale padX padY,
        dims output = [batch; numAttrs; numPreds] ->
        candidates cfg output imgWidth imgHeight scale padX padY
        = decode_loop cfg (data output) (numAttrs - 4) numPreds
            imgWidth imgHeight scale padX padY (upto numPreds) []).
Proof.
  cbv zeta.
  pose proof (best_class_scanned cfg (data output) numClasses numPreds i)
    as [Hub Hfirst].
  unfold score_of, channels in Hub, Hfirst.
  split; [exact Hub |]. split; [| split; [| split]].
  - intros [c [v [Hc [Hv Hpos]]]].
    destruct Hfirst as [[_ E] | Hmax]; [| exact Hmax].
    specialize (Hub c v Hc Hv). rewrite E in Hub. lra.
  - intros Hall.
    destruct Hfirst as [[Ec Es] | [Hk [Hs [Hpos _]]]]; [now split |].
    specialize (Hall _ _ Hk Hs). lra.
  - intros data' Hsame. unfold best_class. apply fold_left_ext_in.
    intros c best Hc. apply upto_In in Hc. unfold scan_class, score_of.
    now rewrite (Hsame c Hc).
  - intros batch numAttrs imgWidth imgHeight scale padX padY Hshape.
    unfold candidates. now rewrite Hshape.
Qed.

(** C6 (as amended) at the second of three predictions, whose four class
    channels hold 0.2, 0.7, 0.7 and 0.1: the class returned is scanned, holds
    the score returned, and the channels before it hold less. *)
Lemma best_class_first_maximum_witness :
  let output :=
    mkTensor [0; 0; 0;  0; 0; 0;  0; 0; 0;  0; 0; 0;
              0.9; 0.2; 0;  0; 0.7; 0;  0; 0.7; 0;  0; 0.1; 0.8]
      [1; 8; 3]%Z in
  let best := best_class shipped (data output) 4 3 1 in
  (0 <= snd best < 4)%Z
  /\ data_at (data output) (1 + (4 + snd best) * 3) = Some (fst best)
  /\ 0 < fst best
  /\ forall c v, (0 <= c < snd best)%Z ->
                 data_at (data output) (1 + (4 + c) * 3) = Some v ->
                 v < fst best.
Proof.
  cbv zeta.
  apply (proj1 (proj2 (best_class_first_maximum shipped
                         (mkTensor [0; 0; 0;  0; 0; 0;  0; 0; 0;  0; 0; 0;
                                    0.9; 0.2; 0;  0; 0.7; 0;  0; 0.7; 0;
                                    0; 0.1; 0.8] [1; 8; 3]%Z) 4 3 1))).
  exists 0%Z, 0.2. repeat split; try (simpl; lia).
Defined.

(** C6 as stated fails where no scanned score is positive.  Of two class
    scores 0 and 0 the greatest is 0, first held by class 0, and the scan
    returns class -1; of the scores -0.3 and -0.1 the greatest is -0.1,
    held by class 1, and the scan returns score 0 with class -1. *)
Lemma best_class_counterexample :
  let zeros := [10; 10; 4; 4; 0; 0] in
  let negative := [10; 10; 4; 4; - 0.3; - 0.1] in
  (data_at zeros (0 + (4 + 0) * 1) = Some 0
   /\ data_at zeros (0 + (4 + 1) * 1) = Some 0
   /\ best_class shipped zeros 2 1 0 = (0, (-1)%Z))
  /\ (data_at negative (0 + (4 + 0) * 1) = Some (- 0.3)
      /\ data_at negative (0 + (4 + 1) * 1) = Some (- 0.1)
      /\ best_class shipped negative 2 1 0 = (0, (-1)%Z)).
Proof.
  cbv zeta. repeat split.
Qed.

(** Scores 0.2, 0.7, 0.7 and 0.1 in the four class channels of the second
    of three predictions: the first 0.7 wins, class 1. *)
Example best_class_tie :
  best_class shipped
    [0; 0; 0;  0; 0; 0;  0; 0; 0;  0; 0; 0;
     0.9; 0.2; 0;  0; 0.7; 0;  0; 0.7; 0;  0; 0.1; 0.8] 4 3 1
  = (0.7, 1%Z).
Proof. vm_compute. reflexivity. Qed.

(** ** The prediction loop *)

Lemma data_at_below (data : list Q) (idx idx' : Z) (v : Q) :
  data_at data idx = Some v -> (0 <= idx' <= idx)%Z ->
  exists v', data_at data idx' = Some v'.
Proof.
  unfold data_at. intros Hv Hi.
  destruct (idx <? 0)%Z eqn:E; [discriminate Hv |].
  apply Z.ltb_ge in E.
  replace (idx' <? 0)%Z with false by (symmetry; apply Z.ltb_ge; lia).
  assert (Hlen : (Z.to_nat idx < List.length data)%nat).
  { apply nth_error_Some. congruence. }
  destruct (nth_error data (Z.to_nat idx')) as [v' |] eqn:E'.
  - now exists v'.
  - apply nth_error_None in E'. lia.
Qed.

Section PredictionLoop.
Variable cfg : Config.
Variable data : list Q.
Variables numClasses numPreds : Z.
Variables imgWidth imgHeight scale padX padY : Q.

Local Abbreviation best := (best_class cfg data numClasses numPreds).
Local Abbreviation body :=
  (decode_pred cfg data numClasses numPreds imgWidth imgHeight scale padX padY).
Local Abbreviation loop :=
  (decode_loop cfg data numClasses numPreds imgWidth imgHeight scale padX padY).
Local Abbreviation pushed :=
  (emitted cfg data numClasses numPreds imgWidth imgHeight scale padX padY).

(** The three ways the loop body ends, read off the best score. *)
Lemma decode_pred_spec (i : Z) :
  match body i with
  | Returned None => fst (best i) < conf_threshold cfg
  | Returned (Some d) =>
      conf_threshold cfg <= fst (best i)
      /\ exists cx cy w h,
           data_at data i = Some cx
           /\ data_at data (i + numPreds) = Some cy
           /\ data_at data (i + 2 * numPreds) = Some w
           /\ data_at data (i + 3 * numPreds) = Some h
           /\ d = remap cx cy w h (fst (best i)) (snd (best i))
                    imgWidth imgHeight scale padX padY
  | NotANumber =>
      conf_threshold cfg <= fst (best i)
      /\ (data_at data i = None \/ data_at data (i + numPreds) = None
          \/ data_at data (i + 2 * numPreds) = None
          \/ data_at data (i + 3 * numPreds) = None)
  end.
Proof.
  unfold decode_pred.
  destruct (best i) as [bestScore bestClass].
  simpl fst; simpl snd.
  destruct (Qltb bestScore (conf_threshold cfg)) eqn:E.
  - apply Qltb_true, E.
  - apply Qltb_false in E.
    destruct (data_at data i) as [cx |];
      [| split; [exact E | now left]].
    destruct (data_at data (i + numPreds)) as [cy |];
      [| split; [exact E | now right; left]].
    destruct (data_at data (i + 2 * numPreds)) as [w |];
      [| split; [exact E | now right; right; left]].
    destruct (data_at data (i + 3 * numPreds)) as [h |];
      [| split; [exact E | now right; right; right]].
    split; [exact E |]. exists cx, cy, w, h. repeat split.
Qed.

Lemma decode_pred_remap (i : Z) (d : Detection) :
  body i = Returned (Some d) ->
  exists cx cy w h,
    data_at data i = Some cx
    /\ data_at data (i + numPreds) = Some cy
    /\ data_at data (i + 2 * numPreds) = Some w
    /\ data_at data (i + 3 * numPreds) = Some h
    /\ d = remap cx cy w h (fst (best i)) (snd (best i))
             imgWidth imgHeight scale padX padY.
Proof.
  intros Hd. pose proof (decode_pred_spec i) as Hspec.
  rewrite Hd in Hspec. apply Hspec.
Qed.

Lemma decode_pred_score (i : Z) (d : Detection) :
  body i = Returned (Some d) ->
  conf_threshold cfg <= fst (best i)
  /\ score d = fst (best i) /\ classId d = snd (best i).
Proof.
  intros Hd. pose proof (decode_pred_spec i) as Hspec.
  rewrite Hd in Hspec.
  destruct Hspec as [Hpass [cx [cy [w [h [_ [_ [_ [_ ->]]]]]]]]].
  split; [exact Hpass | split; reflexivity].
Qed.

(** With a positive threshold a prediction that passes has a defined
    score, which lies behind its four box attributes in the buffer. *)
Lemma decode_pred_returns (i : Z) :
  0 < conf_threshold cfg -> (0 <= i < numPreds)%Z ->
  exists r, body i = Returned r.
Proof.
  intros HT Hi. pose proof (decode_pred_spec i) as Hspec.
  destruct (body i) as [r |]; [now exists r |].
  exfalso. destruct Hspec as [Hpass Hundef].
  pose proof (best_class_scanned cfg data numClasses numPreds i) as [_ Hfirst].
  destruct Hfirst as [[_ E] | [Hk [Hs _]]]; [rewrite E in Hpass; lra |].
  unfold score_of in Hs.
  assert (Hgeo : forall k, (0 <= k <= 3)%Z ->
                   exists v, data_at data (i + k * numPreds) = Some v).
  { intros k Hk'. apply (data_at_below _ _ _ _ Hs). nia. }
  destruct (Hgeo 0%Z ltac:(lia)) as [v0 E0].
  destruct (Hgeo 1%Z ltac:(lia)) as [v1 E1].
  destruct (Hgeo 2%Z ltac:(lia)) as [v2 E2].
  destruct (Hgeo 3%Z ltac:(lia)) as [v3 E3].
  rewrite Z.mul_0_l, Z.add_0_r in E0. rewrite Z.mul_1_l in E1.
  destruct Hundef as [H | [H | [H | H]]]; congruence.
Qed.

Lemma emitted_In (todo : list Z) (d : Detection) :
  In d (pushed todo) <-> exists i, In i todo /\ body i = Returned (Some d).
Proof.
  unfold emitted. rewrite in_flat_map. split.
  - intros [i [Hi Hd]]. exists i. split; [exact Hi |].
    destruct (body i) as [[d' |] |]; simpl in Hd; try contradiction.
    destruct Hd as [-> | []]. reflexivity.
  - intros [i [Hi Hd]]. exists i. split; [exact Hi |].
    rewrite Hd. now left.
Qed.

Lemma decode_loop_Returned (todo : list Z) (detections out : list Detection) :
  loop todo detections = Returned out -> out = detections ++ pushed todo.
Proof.
  revert detections.
  induction todo as [| i todo IH]; intros detections; simpl.
  - intros [= <-]. now rewrite app_nil_r.
  - destruct (body i) as [[d |] |]; simpl; intros H.
    + apply IH in H. now rewrite <- app_assoc in H.
    + apply IH, H.
    + discriminate H.
Qed.

Lemma decode_loop_returns (todo : list Z) (detections : list Detection) :
  (forall i, In i todo -> exists r, body i = Returned r) ->
  loop todo detections = Returned (detections ++ pushed todo).
Proof.
  revert detections.
  induction todo as [| i todo IH]; intros detections Hall; simpl.
  - now rewrite app_nil_r.
  - destruct (Hall i (or_introl eq_refl)) as [r Hr].
    rewrite Hr. simpl.
    rewrite IH by (intros k Hk; apply Hall; now right).
    destruct r as [d |]; [now rewrite <- app_assoc | reflexivity].
Qed.

(** Without a class channel to scan nothing is pushed. *)
Lemma emitted_no_channels (todo : list Z) :
  0 < conf_threshold cfg -> (numClasses <= 0)%Z -> pushed todo = [].
Proof.
  intros HT Hn.
  assert (Hbody : forall i, body i = Returned None).
  { intros i. unfold decode_pred, best_class, channels.
    rewrite upto_nonpos by lia. simpl.
    apply Qltb_true in HT. now rewrite HT. }
  unfold emitted. induction todo as [| i todo IH]; simpl; [reflexivity |].
  now rewrite Hbody, IH.
Qed.
End PredictionLoop.

(** ** The whole decoder *)

Lemma rank_cases (shape : list Z) :
  (exists batch numAttrs numPreds, shape = [batch; numAttrs; numPreds])
  \/ List.length shape <> 3%nat.
Proof.
  destruct shape as [| b [| a [| n [| x rest]]]]; simpl;
    try (right; discriminate).
  left. now exists b, a, n.
Qed.

Lemma candidates_bad_rank (cfg : Config) (output : Tensor)
    (imgWidth imgHeight scale padX padY : Q) :
  List.length (dims output) <> 3%nat ->
  candidates cfg output imgWidth imgHeight scale padX padY = Returned [].
Proof.
  unfold candidates.
  destruct (dims output) as [| b [| a [| n [| x rest]]]]; simpl;
    try reflexivity.
  intros H. now contradiction H.
Qed.

Lemma decodeYOLO_with_bad_rank (cfg : Config) (output : Tensor)
    (imgWidth imgHeight scale padX padY : Q) :
  List.length (dims output) <> 3%nat ->
  decodeYOLO_with cfg output imgWidth imgHeight scale padX padY = Returned [].
Proof.
  unfold decodeYOLO_with.
  destruct (dims output) as [| b [| a [| n [| x rest]]]]; simpl;
    try reflexivity.
  intros H. now contradiction H.
Qed.

Section WholeDecoder.
Variable cfg : Config.
Variable output : Tensor.
Variables imgWidth imgHeight scale padX padY : Q.
Variables batch numAttrs numPreds : Z.
Hypothesis shape : dims output = [batch; numAttrs; numPreds].

Local Abbreviation body :=
  (decode_pred cfg (data output) (numAttrs - 4) numPreds
     imgWidth imgHeight scale padX padY).
Local Abbreviation pushed :=
  (emitted cfg (data output) (numAttrs - 4) numPreds
     imgWidth imgHeight scale padX padY (upto numPreds)).

Lemma candidates_Returned (ds : list Detection) :
  candidates cfg output imgWidth imgHeight scale padX padY = Returned ds ->
  ds = pushed.
Proof.
  unfold candidates. rewrite shape. intros H.
  apply decode_loop_Returned in H. exact H.
Qed.

Lemma candidates_returns :
  0 < conf_threshold cfg ->
  candidates cfg output imgWidth imgHeight scale padX padY = Returned pushed.
Proof.
  intros HT. unfold candidates. rewrite shape.
  rewrite decode_loop_returns; [reflexivity |].
  intros i Hi. apply upto_In in Hi. now apply decode_pred_returns.
Qed.

Lemma decodeYOLO_with_Returned (out : list Detection) :
  decodeYOLO_with cfg output imgWidth imgHeight scale padX padY = Returned out ->
  out = nms pushed (nms_threshold cfg).
Proof.
  unfold decodeYOLO_with. rewrite shape.
  destruct (candidates cfg output imgWidth imgHeight scale padX padY)
    as [ds |] eqn:E; simpl; [| discriminate].
  apply candidates_Returned in E. subst ds. now intros [= <-].
Qed.

Lemma decodeYOLO_with_returns :
  0 < conf_threshold cfg ->
  decodeYOLO_with cfg output imgWidth imgHeight scale padX padY
  = Returned (nms pushed (nms_threshold cfg)).
Proof.
  intros HT. unfold decodeYOLO_with. rewrite shape.
  now rewrite (candidates_returns HT).
Qed.

Lemma pushed_In (d : Detection) :
  In d pushed <->
  exists i, (0 <= i < numPreds)%Z /\ body i = Returned (Some d).
Proof.
  rewrite emitted_In. split; intros [i [Hi Hd]]; exists i.
  - apply upto_In in Hi. now split.
  - split; [now apply upto_In | exact Hd].
Qed.

Lemma nms_pushed_In (d : Detection) (threshold : Q) :
  In d (nms pushed threshold) ->
  exists i, (0 <= i < numPreds)%Z /\ body i = Returned (Some d).
Proof.
  intros Hd. apply pushed_In.
  rewrite nms_unfold in Hd.
  apply (subseq_incl _ _ (suppress_subseq threshold _)) in Hd.
  apply (Permutation_in _ (Array_sort_perm by_score_desc pushed)), Hd.
Qed.
End WholeDecoder.

(** A property of every pushed detection holds of all candidates and of
    all detections returned. *)
Lemma decoder_Forall (P : Detection -> Prop) (cfg : Config) (output : Tensor)
    (imgWidth imgHeight scale padX padY : Q) :
  (forall batch numAttrs numPreds i d,
      dims output = [batch; numAttrs; numPreds] ->
      (0 <= i < numPreds)%Z ->
      decode_pred cfg (data output) (numAttrs - 4) numPreds
        imgWidth imgHeight scale padX padY i = Returned (Some d) ->
      P d) ->
  match candidates cfg output imgWidth imgHeight scale padX padY with
  | Returned ds => Forall P ds
  | NotANumber => True
  end
  /\ match decodeYOLO_with cfg output imgWidth imgHeight scale padX padY with
     | Returned out => Forall P out
     | NotANumber => True
     end.
Proof.
  intros Hbody.
  destruct (rank_cases (dims output)) as [[b [a [n Hshape]]] | Hrank].
  - split.
    + destruct (candidates _ _ _ _ _ _ _) as [ds |] eqn:E; [| exact I].
      apply (candidates_Returned _ _ _ _ _ _ _ _ _ _ Hshape) in E. subst ds.
      apply Forall_forall. intros d Hd.
      apply pushed_In in Hd. destruct Hd as [i [Hi Hd]].
      eapply Hbody; eassumption.
    + destruct (decodeYOLO_with _ _ _ _ _ _ _) as [out |] eqn:E; [| exact I].
      apply (decodeYOLO_with_Returned _ _ _ _ _ _ _ _ _ _ Hshape) in E.
      subst out. apply Forall_forall. intros d Hd.
      apply nms_pushed_In in Hd. destruct Hd as [i [Hi Hd]].
      eapply Hbody; eassumption.
  - rewrite (candidates_bad_rank _ _ _ _ _ _ _ Hrank).
    rewrite (decodeYOLO_with_bad_rank _ _ _ _ _ _ _ Hrank).
    split; constructor.
Qed.

(** With a positive threshold [decodeYOLO] always returns a list. *)
Lemma decoder_returns (cfg : Config) (output : Tensor)
    (imgWidth imgHeight scale padX padY : Q) :
  0 < conf_threshold cfg ->
  (exists ds,
      candidates cfg output imgWidth imgHeight scale padX padY = Returned ds)
  /\ (exists out,
         decodeYOLO_with cfg output imgWidth imgHeight scale padX padY
         = Returned out).
Proof.
  intros HT.
  destruct (rank_cases (dims output)) as [[b [a [n Hshape]]] | Hrank].
  - split; eexists.
    + apply (candidates_returns _ _ _ _ _ _ _ _ _ _ Hshape HT).
    + apply (decodeYOLO_with_returns _ _ _ _ _ _ _ _ _ _ Hshape HT).
  - split; eexists.
    + apply candidates_bad_rank, Hrank.
    + apply decodeYOLO_with_bad_rank, Hrank.
Qed.

Lemma shipped_threshold_positive : 0 < conf_threshold shipped.
Proof. reflexivity. Qed.

(** *** Bad shapes *)

(** C1 (as amended).  For a tensor whose rank is not 3, or whose attribute
    count is at most 4, [decodeYOLO] returns the empty list: the unexpected
    rank is logged and answered by [return []], and with no class channel to
    scan every prediction keeps the best score 0, below the threshold 0.4. *)
Theorem decodeYOLO_bad_shape_returns_empty (output : Tensor)
    (imgWidth imgHeight scale padX padY : Q) :
  (List.length (dims output) <> 3%nat
   \/ exists batch numAttrs numPreds,
        dims output = [batch; numAttrs; numPreds] /\ (numAttrs <= 4)%Z) ->
  decodeYOLO output imgWidth imgHeight scale padX padY = Returned [].
Proof.
  intros [Hrank | [b [a [n [Hshape Ha]]]]].
  - apply decodeYOLO_with_bad_rank, Hrank.
  - unfold decodeYOLO.
    rewrite (decodeYOLO_with_returns _ _ _ _ _ _ _ _ _ _ Hshape
               shipped_threshold_positive).
    rewrite (emitted_no_channels shipped (data output) (a - 4) n
               imgWidth imgHeight scale padX padY (upto n)
               shipped_threshold_positive) by lia.
    now rewrite nms_nil.
Qed.

(** The amended C1 at a tensor of shape [1, 4, 100]. *)
Lemma decodeYOLO_bad_shape_witness :
  decodeYOLO (mkTensor (repeat 50 400) [1; 4; 100]%Z) 1920 1080 (1 # 3) 0 140
  = Returned [].
Proof.
  apply decodeYOLO_bad_shape_returns_empty.
  right. exists 1%Z, 4%Z, 100%Z. split; [reflexivity | lia].
Defined.

(** C1 as stated fails: shape [1, 4, 100] and shape [400] (rank 1) are both
    answered by a returned empty list, not by an error. *)
Lemma decodeYOLO_bad_shape_counterexample :
  decodeYOLO (mkTensor (repeat 50 400) [1; 4; 100]%Z) 640 640 1 0 0 = Returned []
  /\ decodeYOLO (mkTensor (repeat 50 400) [400]%Z) 640 640 1 0 0 = Returned [].
Proof.
  split; vm_compute; reflexivity.
Qed.

(** *** Confidence threshold *)

Lemma decoder_scores (cfg : Config) (output : Tensor)
    (imgWidth imgHeight scale padX padY : Q) :
  match candidates cfg output imgWidth imgHeight scale padX padY with
  | Returned ds => Forall (fun d => conf_threshold cfg <= score d) ds
  | NotANumber => True
  end
  /\ match decodeYOLO_with cfg output imgWidth imgHeight scale padX padY with
     | Returned out => Forall (fun d => conf_threshold cfg <= score d) out
     | NotANumber => True
     end.
Proof.
  apply decoder_Forall. intros b a n i d _ _ Hd.
  destruct (decode_pred_score _ _ _ _ _ _ _ _ _ _ _ Hd) as [Hpass [-> _]].
  exact Hpass.
Qed.

(** C2. A prediction is pushed only when its best class score is at least
    the confidence threshold [T]; a prediction whose best score is below [T]
    takes the [continue] and is not pushed.  The candidates are the
    detections pushed for the predictions 0, ..., numPreds-1 in turn.  Hence
    every candidate, and every detection [decodeYOLO] returns, has a score
    of at least [T]; with the shipped threshold 0.4 [decodeYOLO] does return
    such a list. *)
Theorem decoder_respects_threshold (cfg : Config) (output : Tensor)
    (imgWidth imgHeight scale padX padY : Q) :
  let T := conf_threshold cfg in
  (forall numClasses numPreds i,
      let bestScore := fst (best_class cfg (data output) numClasses numPreds i) in
      match decode_pred cfg (data output) numClasses numPreds
              imgWidth imgHeight scale padX padY i with
      | Returned None => bestScore < T
      | Returned (Some d) => T <= bestScore /\ score d = bestScore
      | NotANumber => T <= bestScore
      end)
  /\ match candidates cfg output imgWidth imgHeight scale padX padY with
     | Returned ds => Forall (fun d => T <= score d) ds
     | NotANumber => True
     end
  /\ match decodeYOLO_with cfg output imgWidth imgHeight scale padX padY with
     | Returned out => Forall (fun d => T <= score d) out
     | NotANumber => True
     end
  /\ (forall batch numAttrs numPreds ds,
        dims output = [batch; numAttrs; numPreds] ->
        candidates cfg output imgWidth imgHeight scale padX padY = Returned ds ->
        ds = emitted cfg (data output) (numAttrs - 4) numPreds
               imgWidth imgHeight scale padX padY (upto numPreds))
  /\ exists out,
       decodeYOLO output imgWidth imgHeight scale padX padY = Returned out
       /\ Forall (fun d => CONF_THRESHOLD <= score d) out.
Proof.
  cbv zeta.
  split; [| rewrite <- and_assoc; split; [| split]].
  - intros numClasses numPreds i.
    pose proof (decode_pred_spec cfg (data output) numClasses numPreds
                  imgWidth imgHeight scale padX padY i) as Hspec.
    destruct (decode_pred _ _ _ _ _ _ _ _ _ _) as [[d |] |] eqn:E.
    + destruct (decode_pred_score _ _ _ _ _ _ _ _ _ _ _ E) as [Hpass [Hs _]].
      now split.
    + exact Hspec.
    + apply Hspec.
  - apply decoder_scores.
  - intros batch numAttrs numPreds ds Hshape E.
    apply (candidates_Returned _ _ _ _ _ _ _ _ _ _ Hshape), E.
  - destruct (proj2 (decoder_returns shipped output imgWidth imgHeight
                       scale padX padY shipped_threshold_positive)) as [out E].
    exists out. split; [exact E |].
    pose proof (proj2 (decoder_scores shipped output imgWidth imgHeight
                         scale padX padY)) as H.
    unfold decodeYOLO in E. rewrite E in H. exact H.
Qed.

(** Three predictions with best scores 0.9, 0.3 and 0.4: the second is
    dropped, the third, at the threshold, is kept. *)
Example decoder_threshold_run :
  decodeYOLO
    (mkTensor [100; 300; 500;  100; 300; 500;  40; 40; 40;  20; 20; 20;
               0.9; 0.3; 0.4;  0.1; 0.2; 0.1]
       [1; 6; 3]%Z) 640 640 1 0 0
  = Returned [ remap 100 100 40 20 0.9 0 640 640 1 0 0;
               remap 500 500 40 20 0.4 0 640 640 1 0 0 ].
Proof. vm_compute. reflexivity. Qed.

(** *** Remapping *)

Lemma unletterbox_monotone (pad scale u v : Q) :
  0 < scale -> u <= v -> (u - pad) / scale <= (v - pad) / scale.
Proof.
  intros Hs Huv. unfold Qdiv. apply Qmult_le_compat_r; [lra |].
  apply Qinv_le_0_compat, Qlt_le_weak, Hs.
Qed.

Lemma remap_within (cx cy w h bestScore : Q) (bestClass : Z)
    (imgWidth imgHeight scale padX padY : Q) :
  0 <= imgWidth -> 0 <= imgHeight ->
  within imgWidth imgHeight
    (remap cx cy w h bestScore bestClass imgWidth imgHeight scale padX padY).
Proof.
  intros HW HH. unfold within, remap. simpl.
  repeat split; apply clamp_bounds; assumption.
Qed.

Lemma remap_well_formed (cx cy w h bestScore : Q) (bestClass : Z)
    (imgWidth imgHeight scale padX padY : Q) :
  0 < scale -> 0 <= w -> 0 <= h ->
  well_formed
    (remap cx cy w h bestScore bestClass imgWidth imgHeight scale padX padY).
Proof.
  intros Hs Hw Hh. unfold well_formed, remap. simpl.
  assert (Hw2 : 0 <= w / 2) by (apply Qle_shift_div_l; lra).
  assert (Hh2 : 0 <= h / 2) by (apply Qle_shift_div_l; lra).
  split; apply clamp_monotone, unletterbox_monotone; try exact Hs; lra.
Qed.

(** C4. For an image of width and height [imgW, imgH >= 0] and a letterbox
    scale [> 0], the remapping step turns centre and size into corners, maps
    each corner back through the letterbox ([(x - padX) / scale],
    [(y - padY) / scale], which undoes [u * scale + pad]) and clamps x to
    [0, imgW] and y to [0, imgH]; the
    detection keeps the candidate's score and class, and its corners lie in
    [0, imgW] x [0, imgH].  Every detection the decoder pushes is such a
    remapping of the four box attributes of its prediction, so the
    detections returned lie in that rectangle too. *)
Theorem remap_inverse_letterbox_clamped
    (cx cy w h bestScore : Q) (bestClass : Z)
    (imgWidth imgHeight scale padX padY : Q) :
  0 <= imgWidth -> 0 <= imgHeight -> 0 < scale ->
  let d := remap cx cy w h bestScore bestClass
             imgWidth imgHeight scale padX padY in
  (x1 d = clamp imgWidth ((cx - w / 2 - padX) / scale)
   /\ y1 d = clamp imgHeight ((cy - h / 2 - padY) / scale)
   /\ x2 d = clamp imgWidth ((cx + w / 2 - padX) / scale)
   /\ y2 d = clamp imgHeight ((cy + h / 2 - padY) / scale))
  /\ (forall u, ((u * scale + padX) - padX) / scale == u
                 /\ (u * scale + padY - padY) / scale == u)
  /\ (forall hi v, 0 <= hi ->
        (v <= 0 -> clamp hi v == 0)
        /\ (0 <= v <= hi -> clamp hi v == v)
        /\ (hi <= v -> clamp hi v == hi))
  /\ (score d = bestScore /\ classId d = bestClass)
  /\ within imgWidth imgHeight d
  /\ (forall cfg data numClasses numPreds i d',
        decode_pred cfg data numClasses numPreds
          imgWidth imgHeight scale padX padY i = Returned (Some d') ->
        exists cx' cy' w' h',
          data_at data i = Some cx'
          /\ data_at data (i + numPreds) = Some cy'
          /\ data_at data (i + 2 * numPreds) = Some w'
          /\ data_at data (i + 3 * numPreds) = Some h'
          /\ d' = remap cx' cy' w' h'
                    (fst (best_class cfg data numClasses numPreds i))
                    (snd (best_class cfg data numClasses numPreds i))
                    imgWidth imgHeight scale padX padY)
  /\ (forall cfg output,
        match decodeYOLO_with cfg output imgWidth imgHeight scale padX padY with
        | Returned out => Forall (within imgWidth imgHeight) out
        | NotANumber => True
        end).
Proof.
  intros HW HH Hs. cbv zeta.
  split; [repeat split |].
  split; [intros u; split; field; lra |].
  split; [apply clamp_spec |].
  split; [split; reflexivity |]. split; [now apply remap_within |].
  split; [intros; now apply decode_pred_remap |].
  intros cfg output. apply decoder_Forall.
  intros b a n i d _ _ Hd.
  apply decode_pred_remap in Hd.
  destruct Hd as [cx' [cy' [w' [h' [_ [_ [_ [_ ->]]]]]]]].
  now apply remap_within.
Qed.

(** C4 for a 40x20 box centred at (100, 200) in tensor space, a 1920x1080
    image and its letterbox (scale 1/3, padding 0 and 140). *)
Lemma remap_inverse_letterbox_witness :
  let d := remap 100 200 40 20 0.9 1 1920 1080 (1 # 3) 0 140 in
  (x1 d == 240 /\ y1 d == 150 /\ x2 d == 360 /\ y2 d == 210)
  /\ (score d = 0.9 /\ classId d = 1%Z)
  /\ within 1920 1080 d.
Proof.
  cbv zeta.
  destruct (remap_inverse_letterbox_clamped 100 200 40 20 0.9 1
              1920 1080 (1 # 3) 0 140) as [_ [_ [_ [Hsc [Hin _]]]]].
  - discriminate.
  - discriminate.
  - reflexivity.
  - split; [| split; assumption].
    repeat split; vm_compute; reflexivity.
Defined.

(** *** Corner order *)

(** C5 (as amended).  For an image of width and height [>= 0] and a
    letterbox scale [> 0], every detection [decodeYOLO] returns has both
    corners in [0, imageWidth] x [0, imageHeight]; it has [x1 <= x2] and
    [y1 <= y2] when the widths and heights in the tensor are non-negative. *)
Theorem detections_within_and_ordered (cfg : Config) (output : Tensor)
    (imgWidth imgHeight scale padX padY : Q) :
  0 <= imgWidth -> 0 <= imgHeight -> 0 < scale ->
  match decodeYOLO_with cfg output imgWidth imgHeight scale padX padY with
  | Returned out =>
      Forall (within imgWidth imgHeight) out
      /\ (sizes_nonneg output -> Forall well_formed out)
  | NotANumber => True
  end
  /\ exists out,
       decodeYOLO output imgWidth imgHeight scale padX padY = Returned out
       /\ Forall (within imgWidth imgHeight) out
       /\ (sizes_nonneg output -> Forall well_formed out).
Proof.
  intros HW HH Hs.
  assert (Hgen : forall cfg',
             match decodeYOLO_with cfg' output imgWidth imgHeight
                     scale padX padY with
             | Returned out =>
                 Forall (within imgWidth imgHeight) out
                 /\ (sizes_nonneg output -> Forall well_formed out)
             | NotANumber => True
             end).
  { intros cfg'.
    assert (Hall : match decodeYOLO_with cfg' output imgWidth imgHeight
                           scale padX padY with
                   | Returned out =>
                       Forall (fun d => within imgWidth imgHeight d
                                 /\ (sizes_nonneg output -> well_formed d)) out
                   | NotANumber => True
                   end).
    { apply decoder_Forall. intros b a n i d Hshape Hi Hd.
      apply decode_pred_remap in Hd.
      destruct Hd as [cx [cy [w [h [_ [_ [Ew [Eh ->]]]]]]]].
      split; [now apply remap_within |].
      intros Hsizes. apply remap_well_formed; [exact Hs | |].
      - apply (Hsizes b a n i w Hshape Hi). now left.
      - apply (Hsizes b a n i h Hshape Hi). now right. }
    destruct (decodeYOLO_with cfg' output imgWidth imgHeight scale padX padY)
      as [out |]; [| exact I].
    split.
    - eapply Forall_impl; [| exact Hall]. intros d Hd. apply Hd.
    - intros Hsizes. eapply Forall_impl; [| exact Hall].
      intros d Hd. now apply Hd. }
  split; [apply Hgen |].
  destruct (proj2 (decoder_returns shipped output imgWidth imgHeight
                     scale padX padY shipped_threshold_positive)) as [out E].
  exists out. split; [exact E |].
  specialize (Hgen shipped). unfold decodeYOLO in E. rewrite E in Hgen.
  exact Hgen.
Qed.

(** The amended C5 on a 640x640 image and a tensor of two predictions with
    widths 50 and 40 and heights 20 and 20. *)
Lemma detections_within_and_ordered_witness :
  exists out,
    decodeYOLO (mkTensor [100; 200; 100; 200; 50; 40; 20; 20; 0.9; 0.5]
                  [1; 5; 2]%Z) 640 640 1 0 0 = Returned out
    /\ Forall (within 640 640) out
    /\ Forall well_formed out.
Proof.
  destruct (proj2 (detections_within_and_ordered shipped
              (mkTensor [100; 200; 100; 200; 50; 40; 20; 20; 0.9; 0.5]
                 [1; 5; 2]%Z) 640 640 1 0 0 ltac:(discriminate)
              ltac:(discriminate) ltac:(reflexivity)))
    as [out [E [Hin Hord]]].
  exists out. split; [exact E |]. split; [exact Hin |].
  apply Hord.
  intros b a n i v Hshape Hi Hv. simpl in Hshape.
  injection Hshape as _ _ <-. simpl in Hv.
  assert (Hcases : i = 0%Z \/ i = 1%Z) by lia.
  destruct Hcases as [-> | ->]; destruct Hv as [Hv | Hv];
    injection Hv as <-; discriminate.
Defined.

(** C5 as stated fails: a prediction with the width -40 is returned with
    [x1 = 220] and [x2 = 180]. *)
Lemma detections_ordered_counterexample :
  exists d,
    decodeYOLO (mkTensor [200; 200; -40; 20; 0.9] [1; 5; 1]%Z) 640 640 1 0 0
    = Returned [d]
    /\ x1 d == 220 /\ x2 d == 180 /\ ~ x1 d <= x2 d.
Proof.
  eexists. split; [vm_compute; reflexivity |].
  repeat split; try (vm_compute; reflexivity).
  vm_compute. intros H. now apply H.
Qed.

(** *** The class -1 *)

Lemma data_at_defined (data : list Q) (idx : Z) :
  (0 <= idx < Z.of_nat (List.length data))%Z ->
  exists v, data_at data idx = Some v.
Proof.
  intros Hidx. unfold data_at.
  replace (idx <? 0)%Z with false by (symmetry; apply Z.ltb_ge; lia).
  destruct (nth_error data (Z.to_nat idx)) as [v |] eqn:E; [now exists v |].
  apply nth_error_None in E. lia.
Qed.

Section ThresholdZero.
Variable cfg : Config.
Variable output : Tensor.
Variables imgWidth imgHeight scale padX padY : Q.
Variables batch numAttrs numPreds : Z.
Hypothesis shape : dims output = [batch; numAttrs; numPreds].
Hypothesis threshold_zero : conf_threshold cfg == 0.
Hypothesis box_rows :
  (4 * numPreds <= Z.of_nat (List.length (data output)))%Z.

Local Abbreviation best :=
  (best_class cfg (data output) (numAttrs - 4) numPreds).
Local Abbreviation body :=
  (decode_pred cfg (data output) (numAttrs - 4) numPreds
     imgWidth imgHeight scale padX padY).
Local Abbreviation pushed :=
  (emitted cfg (data output) (numAttrs - 4) numPreds
     imgWidth imgHeight scale padX padY (upto numPreds)).

(** With the threshold 0 no prediction takes the [continue]. *)
Lemma decode_pred_threshold_zero (i : Z) :
  (0 <= i < numPreds)%Z ->
  exists cx cy w h,
    data_at (data output) i = Some cx
    /\ data_at (data output) (i + numPreds) = Some cy
    /\ data_at (data output) (i + 2 * numPreds) = Some w
    /\ data_at (data output) (i + 3 * numPreds) = Some h
    /\ body i = Returned (Some (remap cx cy w h (fst (best i)) (snd (best i))
                                  imgWidth imgHeight scale padX padY)).
Proof.
  intros Hi.
  destruct (data_at_defined (data output) i ltac:(lia)) as [cx Ecx].
  destruct (data_at_defined (data output) (i + numPreds) ltac:(lia))
    as [cy Ecy].
  destruct (data_at_defined (data output) (i + 2 * numPreds) ltac:(lia))
    as [w Ew].
  destruct (data_at_defined (data output) (i + 3 * numPreds) ltac:(lia))
    as [h Eh].
  exists cx, cy, w, h. repeat (split; [assumption |]).
  pose proof (scanned_nonneg _ _ _ _ _
                (best_class_scanned cfg (data output) (numAttrs - 4) numPreds i))
    as Hnonneg.
  unfold decode_pred. rewrite Ecx, Ecy, Ew, Eh.
  destruct (best i) as [bestScore bestClass]. simpl in *.
  replace (Qltb bestScore (conf_threshold cfg)) with false; [reflexivity |].
  symmetry. apply Qltb_false. rewrite threshold_zero. exact Hnonneg.
Qed.

Lemma emitted_all_pushed (todo : list Z) :
  (forall i, In i todo -> exists d, body i = Returned (Some d)) ->
  List.length (emitted cfg (data output) (numAttrs - 4) numPreds
                 imgWidth imgHeight scale padX padY todo)
  = List.length todo
  /\ forall k i d,
       nth_error todo k = Some i -> body i = Returned (Some d) ->
       nth_error (emitted cfg (data output) (numAttrs - 4) numPreds
                    imgWidth imgHeight scale padX padY todo) k = Some d.
Proof.
  induction todo as [| j todo IH]; intros Hall.
  - split; [reflexivity |]. intros [| k] i d H; discriminate H.
  - destruct (Hall j (or_introl eq_refl)) as [dj Ej].
    destruct (IH (fun i Hi => Hall i (or_intror Hi))) as [Hlen Hnth].
    unfold emitted in *. simpl. rewrite Ej. simpl.
    split; [now rewrite Hlen |].
    intros [| k] i d H Ed; simpl in *.
    + injection H as <-. congruence.
    + now apply (Hnth k i d).
Qed.

Lemma threshold_zero_returns :
  candidates cfg output imgWidth imgHeight scale padX padY = Returned pushed
  /\ decodeYOLO_with cfg output imgWidth imgHeight scale padX padY
     = Returned (nms pushed (nms_threshold cfg)).
Proof.
  assert (E : candidates cfg output imgWidth imgHeight scale padX padY
              = Returned pushed).
  { unfold candidates. rewrite shape.
    rewrite decode_loop_returns; [reflexivity |].
    intros i Hi. apply upto_In in Hi.
    destruct (decode_pred_threshold_zero i Hi)
      as [cx [cy [w [h [_ [_ [_ [_ E]]]]]]]].
    eexists. exact E. }
  split; [exact E |]. unfold decodeYOLO_with. now rewrite shape, E.
Qed.

(** Without a positive score the running best is never replaced. *)
Lemma best_class_no_positive (i : Z) :
  no_positive_score cfg output numAttrs numPreds i ->
  best i = (0, (-1)%Z).
Proof.
  intros Hnone.
  pose proof (best_class_scanned cfg (data output) (numAttrs - 4) numPreds i)
    as [_ Hfirst].
  destruct (best i) as [bestScore bestClass]. simpl in Hfirst.
  destruct Hfirst as [[-> ->] | [Hk [Hs [Hpos _]]]]; [reflexivity |].
  specialize (Hnone bestClass bestScore Hk Hs). lra.
Qed.
End ThresholdZero.

(** C10. With a strictly positive confidence threshold (0.4 as shipped)
    [decodeYOLO] returns, and every candidate and every returned detection
    has [classId >= 0] and [score > 0]: the class -1 goes with the initial
    best score 0, which is below the threshold.  With the threshold 0 and a
    buffer that holds the four box rows, every prediction is pushed, so there
    are [numPreds] candidates; a prediction [i] whose scanned scores are all
    at most 0 is candidate number [i], with score 0 and [classId = -1].  It
    is returned unless a kept box of the same score or more overlaps it by
    the suppression threshold or more (for boxes with [x1 <= x2] and
    [y1 <= y2], where line 79 divides by a positive number); and when no
    prediction has a positive score the list returned is not empty and every
    detection in it has [classId = -1]. *)
Theorem positive_threshold_excludes_sentinel (cfg : Config) (output : Tensor)
    (imgWidth imgHeight scale padX padY : Q) :
  (0 < conf_threshold cfg ->
   (exists ds,
       candidates cfg output imgWidth imgHeight scale padX padY = Returned ds
       /\ Forall (fun d => (0 <= classId d)%Z /\ 0 < score d) ds)
   /\ (exists out,
          decodeYOLO_with cfg output imgWidth imgHeight scale padX padY
          = Returned out
          /\ Forall (fun d => (0 <= classId d)%Z /\ 0 < score d) out))
  /\ (conf_threshold cfg == 0 ->
      forall batch numAttrs numPreds,
        dims output = [batch; numAttrs; numPreds] ->
        (4 * numPreds <= Z.of_nat (List.length (data output)))%Z ->
        exists ds out,
          candidates cfg output imgWidth imgHeight scale padX padY
          = Returned ds
          /\ decodeYOLO_with cfg output imgWidth imgHeight scale padX padY
             = Returned out
          /\ List.length ds = Z.to_nat numPreds
          /\ (forall i,
                (0 <= i < numPreds)%Z ->
                no_positive_score cfg output numAttrs numPreds i ->
                exists cx cy w h,
                  data_at (data output) i = Some cx
                  /\ data_at (data output) (i + numPreds) = Some cy
                  /\ data_at (data output) (i + 2 * numPreds) = Some w
                  /\ data_at (data output) (i + 3 * numPreds) = Some h
                  /\ let d := remap cx cy w h 0 (-1)
                                imgWidth imgHeight scale padX padY in
                     nth_error ds (Z.to_nat i) = Some d
                     /\ (0 < scale -> sizes_nonneg output ->
                         Forall well_formed ds
                         /\ (In d out
                             \/ exists k,
                                  In k out /\ score d <= score k
                                  /\ nms_threshold cfg <= iou k d)))
          /\ ((0 < numPreds)%Z ->
              (forall i, (0 <= i < numPreds)%Z ->
                         no_positive_score cfg output numAttrs numPreds i) ->
              out <> []
              /\ Forall (fun d => classId d = (-1)%Z /\ score d = 0) out)).
Proof.
  split.
  - intros HT.
    assert (HP : match candidates cfg output imgWidth imgHeight
                         scale padX padY with
                 | Returned ds =>
                     Forall (fun d => (0 <= classId d)%Z /\ 0 < score d) ds
                 | NotANumber => True
                 end
                 /\ match decodeYOLO_with cfg output imgWidth imgHeight
                            scale padX padY with
                    | Returned out =>
                        Forall (fun d => (0 <= classId d)%Z /\ 0 < score d) out
                    | NotANumber => True
                    end).
    { apply decoder_Forall. intros b a n i d _ _ Hd.
      destruct (decode_pred_score _ _ _ _ _ _ _ _ _ _ _ Hd) as [Hpass [-> ->]].
      pose proof (best_class_scanned cfg (data output) (a - 4) n i) as [_ Hfirst].
      destruct Hfirst as [[_ E] | [Hk [_ [Hpos _]]]].
      - rewrite E in Hpass. lra.
      - split; [lia | exact Hpos]. }
    destruct (decoder_returns cfg output imgWidth imgHeight scale padX padY HT)
      as [[ds Eds] [out Eout]].
    rewrite Eds, Eout in HP. destruct HP as [Hds Hout].
    split; [exists ds | exists out]; split; auto.
  - intros HT batch numAttrs numPreds Hshape Hrows.
    destruct (threshold_zero_returns cfg output imgWidth imgHeight scale
                padX padY batch numAttrs numPreds Hshape HT Hrows)
      as [Eds Eout].
    set (ds := emitted cfg (data output) (numAttrs - 4) numPreds
                 imgWidth imgHeight scale padX padY (upto numPreds)) in *.
    assert (Hbody : forall i, In i (upto numPreds) ->
              exists d, decode_pred cfg (data output) (numAttrs - 4) numPreds
                          imgWidth imgHeight scale padX padY i
                        = Returned (Some d)).
    { intros i Hi. apply upto_In in Hi.
      destruct (decode_pred_threshold_zero cfg output imgWidth imgHeight scale
                  padX padY numAttrs numPreds HT Hrows i Hi)
        as [cx [cy [w [h [_ [_ [_ [_ E]]]]]]]].
      eexists. exact E. }
    destruct (emitted_all_pushed cfg output imgWidth imgHeight scale padX padY
                numAttrs numPreds (upto numPreds) Hbody) as [Hlen Hnth].
    fold ds in Hlen, Hnth.
    exists ds, (nms ds (nms_threshold cfg)).
    split; [exact Eds |]. split; [exact Eout |].
    split; [now rewrite Hlen, upto_length |]. split.
    + intros i Hi Hnone.
      destruct (decode_pred_threshold_zero cfg output imgWidth imgHeight scale
                  padX padY numAttrs numPreds HT Hrows i Hi)
        as [cx [cy [w [h [Ecx [Ecy [Ew [Eh E]]]]]]]].
      rewrite (best_class_no_positive cfg output numAttrs numPreds i Hnone)
        in E.
      simpl in E.
      exists cx, cy, w, h. repeat (split; [assumption |]). cbv zeta.
      assert (Hd : nth_error ds (Z.to_nat i)
                   = Some (remap cx cy w h 0 (-1)
                             imgWidth imgHeight scale padX padY))
        by (apply (Hnth _ i); [now apply upto_nth | exact E]).
      split; [exact Hd |]. intros Hs Hsizes. split.
      * apply Forall_forall. intros d Hin.
        unfold ds in Hin. apply pushed_In in Hin.
        destruct Hin as [j [Hj Ej]].
        apply decode_pred_remap in Ej.
        destruct Ej as [cx' [cy' [w' [h' [_ [_ [Ew' [Eh' ->]]]]]]]].
        apply remap_well_formed; [exact Hs | |].
        -- apply (Hsizes batch numAttrs numPreds j w' Hshape Hj). now left.
        -- apply (Hsizes batch numAttrs numPreds j h' Hshape Hj). now right.
      * apply nms_covers. eapply nth_error_In, Hd.
    + intros Hpos Hnone.
      assert (Hall : Forall (fun d => classId d = (-1)%Z /\ score d = 0) ds).
      { apply Forall_forall. intros d Hin.
        unfold ds in Hin. apply pushed_In in Hin.
        destruct Hin as [j [Hj Ej]].
        destruct (decode_pred_score _ _ _ _ _ _ _ _ _ _ _ Ej) as [_ [-> ->]].
        now rewrite (best_class_no_positive cfg output numAttrs numPreds j
                       (Hnone j Hj)). }
      split.
      * rewrite nms_empty_iff. intros Hempty.
        apply (f_equal (@List.length Detection)) in Hempty.
        rewrite Hlen, upto_length in Hempty. simpl in Hempty. lia.
      * apply Forall_forall. intros d Hin. apply nms_In in Hin.
        rewrite Forall_forall in Hall. now apply Hall.
Qed.

(** C10 at the shipped configuration, and at threshold 0 for a tensor of two
    predictions with one class channel, which holds the scores 0 and 0.9:
    the first prediction is candidate number 0 with [classId = -1] and, the
    two boxes being far apart, it is returned behind the second. *)
Lemma positive_threshold_witness :
  (exists out,
      decodeYOLO_with shipped (mkTensor [10; 10; 4; 4; 0.9] [1; 5; 1]%Z)
        640 640 1 0 0 = Returned out
      /\ Forall (fun d => (0 <= classId d)%Z /\ 0 < score d) out)
  /\ (let output :=
        mkTensor [10; 300;  10; 300;  4; 4;  4; 4;  0; 0.9] [1; 5; 2]%Z in
      let d := remap 10 10 4 4 0 (-1) 640 640 1 0 0 in
      exists ds out,
        candidates (mkConfig 0 0.5 CLASSES) output 640 640 1 0 0 = Returned ds
        /\ decodeYOLO_with (mkConfig 0 0.5 CLASSES) output 640 640 1 0 0
           = Returned out
        /\ nth_error ds 0 = Some d
        /\ In d out).
Proof.
  split.
  - apply (proj1 (positive_threshold_excludes_sentinel shipped
                    (mkTensor [10; 10; 4; 4; 0.9] [1; 5; 1]%Z) 640 640 1 0 0)).
    reflexivity.
  - cbv zeta.
    destruct (proj2 (positive_threshold_excludes_sentinel
                       (mkConfig 0 0.5 CLASSES)
                       (mkTensor [10; 300;  10; 300;  4; 4;  4; 4;  0; 0.9]
                          [1; 5; 2]%Z) 640 640 1 0 0)
                (Qeq_refl 0) 1%Z 5%Z 2%Z eq_refl)
      as [ds [out [Eds [Eout [_ [Hsentinel _]]]]]].
    { simpl. lia. }
    exists ds, out. split; [exact Eds |]. split; [exact Eout |].
    destruct (Hsentinel 0%Z) as [cx [cy [w [h [Ecx [Ecy [Ew [Eh Hd]]]]]]]].
    { lia. }
    { intros c v Hc. simpl in Hc. assert (c = 0%Z) as -> by lia.
      intros [= <-]. apply Qle_refl. }
    injection Ecx as <-. injection Ecy as <-.
    injection Ew as <-. injection Eh as <-.
    destruct Hd as [Hnth Hout]. split; [exact Hnth |].
    vm_compute in Eout. injection Eout as <-.
    vm_compute. right. left. reflexivity.
Defined.

(** * Part III: further properties of the code *)

(** ** The range of [iou] *)

(** X1. For two boxes with [x1 <= x2] and [y1 <= y2], the overlap that
    [iou] computes is at most the area of each box, line 79 divides by a
    positive number, and [iou] lies between 0 and 1.  It is 0 for disjoint
    boxes: a positive value is returned only for two boxes that overlap
    along both axes. *)
Theorem iou_between_0_and_1 (a b : Detection) :
  well_formed a -> well_formed b ->
  (0 <= interArea a b /\ interArea a b <= area a /\ interArea a b <= area b)
  /\ 0 < area a + area b - interArea a b + (1 # 1000000)
  /\ 0 <= iou a b <= 1
  /\ (disjoint a b -> iou a b == 0)
  /\ (0 < iou a b ->
      x1 b < x2 a /\ x1 a < x2 b /\ y1 b < y2 a /\ y1 a < y2 b).
Proof.
  intros Ha Hb.
  destruct (iou_range a b Ha Hb) as [Hden [Hge Hlt]].
  pose proof (interArea_le_area a b Ha) as H1.
  pose proof (interArea_le_area b a Hb) as H2.
  rewrite <- (interArea_sym a b) in H2.
  assert (Hzero : disjoint a b -> iou a b == 0).
  { intros Hd. rewrite iou_unfold, (interArea_disjoint a b Hd).
    unfold Qdiv. ring. }
  split; [split; [apply interArea_nonneg | split; assumption] |].
  split; [exact Hden |].
  split; [split; [exact Hge | apply Qlt_le_weak, Hlt] |].
  split; [exact Hzero |].
  intros Hpos.
  assert (Hnd : ~ disjoint a b).
  { intros Hd. apply Hzero in Hd. rewrite Hd in Hpos.
    revert Hpos. apply Qlt_irrefl. }
  unfold disjoint in Hnd.
  repeat split; apply Qnot_le_lt; intros Hle; apply Hnd; tauto.
Qed.

(** X1 at two 10x10 boxes that share a 5x10 strip, and at two that only
    touch. *)
Lemma iou_between_0_and_1_witness :
  let a := mkDetection 0 0 10 10 0.9 1 in
  let b := mkDetection 5 0 15 10 0.8 1 in
  let c := mkDetection 10 0 20 10 0.7 1 in
  0 <= iou a b <= 1 /\ iou a c == 0.
Proof.
  cbv zeta.
  assert (Hwf : forall x0 x3 s k,
             x0 <= x3 -> well_formed (mkDetection x0 0 x3 10 s k)).
  { intros x0 x3 s k Hx. split; simpl; [exact Hx | discriminate]. }
  destruct (iou_between_0_and_1 (mkDetection 0 0 10 10 0.9 1)
              (mkDetection 5 0 15 10 0.8 1)) as [_ [_ [Hr _]]];
    try (apply Hwf; discriminate).
  destruct (iou_between_0_and_1 (mkDetection 0 0 10 10 0.9 1)
              (mkDetection 10 0 20 10 0.7 1)) as [_ [_ [_ [Hzero _]]]];
    try (apply Hwf; discriminate).
  split; [exact Hr |].
  apply Hzero. left. simpl. apply Qle_refl.
Defined.

(** ** [nms]: order, survivors and thresholds *)

(** X2. Among boxes with [x1 <= x2] and [y1 <= y2], every box that [nms]
    drops overlaps a box that it keeps: for each input box [d], either [d]
    is in the output or the output holds a box [k] with
    [score k >= score d] and [iou(k, d) >= threshold], a quotient by a
    positive number. *)
Theorem nms_dropped_are_overlapped
    (boxes : list Detection) (threshold : Q) (d : Detection) :
  Forall well_formed boxes ->
  In d boxes ->
  In d (nms boxes threshold)
  \/ exists k, In k (nms boxes threshold)
               /\ score d <= score k /\ threshold <= iou k d
               /\ 0 < area k + area d - interArea k d + (1 # 1000000).
Proof.
  intros Hwf Hd. rewrite Forall_forall in Hwf.
  destruct (nms_covers boxes threshold d Hd) as [Hin | [k [Hk [Hs Ht]]]];
    [now left | right].
  exists k. repeat (split; [assumption |]).
  apply iou_range; apply Hwf; [apply (nms_In _ _ _ Hk) | exact Hd].
Qed.

(** X2 for the box with score 0.6 of two coinciding boxes: it is dropped in
    favour of the one with score 0.9. *)
Lemma nms_dropped_are_overlapped_witness :
  let a := mkDetection 0 0 10 10 0.6 1 in
  let b := mkDetection 0 0 10 10 0.9 1 in
  In a (nms [a; b] 0.5)
  \/ exists k, In k (nms [a; b] 0.5) /\ score a <= score k /\ 0.5 <= iou k a
               /\ 0 < area k + area a - interArea k a + (1 # 1000000).
Proof.
  cbv zeta. apply nms_dropped_are_overlapped; [| now left].
  repeat constructor; simpl; discriminate.
Defined.

(** X3. [nms] of the empty list is empty.  Of a non-empty list it returns a
    non-empty list in the order of descending scores, whose first element is
    an input box of the highest score. *)
Theorem nms_keeps_a_top_box (boxes : list Detection) (threshold : Q) :
  StronglySorted score_desc (nms boxes threshold)
  /\ (boxes = [] -> nms boxes threshold = [])
  /\ (boxes <> [] ->
      exists top rest,
        nms boxes threshold = top :: rest
        /\ In top boxes
        /\ Forall (fun b => score b <= score top) boxes).
Proof.
  split; [apply nms_score_desc |]. split.
  - intros ->. apply nms_nil.
  - intros Hne. rewrite nms_unfold.
    pose proof (Array_sort_perm by_score_desc boxes) as Hperm.
    pose proof (Array_sort_score_desc boxes) as Hsorted.
    destruct (Array_sort by_score_desc boxes) as [| top sorted] eqn:E.
    + apply Permutation_nil in Hperm. contradiction.
    + rewrite suppress_cons. eexists _, _. split; [reflexivity |].
      split; [apply (Permutation_in _ Hperm); now left |].
      apply StronglySorted_inv in Hsorted as [_ Htop].
      rewrite Forall_forall in *. intros b Hb.
      apply (Permutation_in _ (Permutation_sym Hperm)) in Hb.
      destruct Hb as [<- | Hb]; [apply Qle_refl | apply (Htop b Hb)].
Qed.

Lemma suppress_all_stay (threshold : Q) (boxes : list Detection) :
  ForallOrdPairs (fun c b => stays threshold c b = true) boxes ->
  suppress threshold boxes = boxes.
Proof.
  induction 1 as [| current rest Hcur Hrest IH]; [apply suppress_nil |].
  now rewrite suppress_cons, (filter_all _ _ Hcur), IH.
Qed.

Lemma suppress_none_stay (threshold : Q) (current : Detection)
    (rest : list Detection) :
  Forall (fun b => stays threshold current b = false) rest ->
  suppress threshold (current :: rest) = [current].
Proof.
  intros Hnone. rewrite suppress_cons.
  replace (filter (stays threshold current) rest) with (@nil Detection);
    [now rewrite suppress_nil |].
  induction Hnone as [| b rest Hb Hrest IH]; simpl; [reflexivity |].
  now rewrite Hb.
Qed.

Lemma ForallOrdPairs_all {A : Type} (R : A -> A -> Prop) (l : list A) :
  (forall a b, In a l -> In b l -> R a b) -> ForallOrdPairs R l.
Proof.
  induction l as [| x l IH]; intros H; constructor.
  - apply Forall_forall. intros b Hb. apply H; [now left | now right].
  - apply IH. intros a b Ha Hb. apply H; now right.
Qed.

Lemma ForallOrdPairs_perm {A : Type} (R : A -> A -> Prop) (l l' : list A) :
  (forall a b, R a b -> R b a) ->
  Permutation l l' -> ForallOrdPairs R l -> ForallOrdPairs R l'.
Proof.
  intros Hsym Hperm.
  induction Hperm as [| x l l' Hperm IH | x y l | l l' l'' H1 IH1 H2 IH2];
    intros H.
  - exact H.
  - inversion H as [| ? ? Hx Hl]; subst. constructor; [| apply IH, Hl].
    rewrite Forall_forall in *. intros b Hb.
    apply Hx, (Permutation_in _ (Permutation_sym Hperm)), Hb.
  - inversion H as [| ? ? Hy Hl]; subst.
    inversion Hl as [| ? ? Hx Hl']; subst.
    apply Forall_cons_iff in Hy as [Hyx Hy].
    repeat constructor; auto.
  - apply IH2, IH1, H.
Qed.

Lemma ForallOrdPairs_impl {A : Type} (R S : A -> A -> Prop) (l : list A) :
  (forall a b, R a b -> S a b) -> ForallOrdPairs R l -> ForallOrdPairs S l.
Proof.
  intros HRS. induction 1 as [| x l Hx Hl IH]; constructor; [| exact IH].
  eapply Forall_impl; [| exact Hx]. intros b. apply HRS.
Qed.

Lemma disjoint_sym (a b : Detection) : disjoint a b -> disjoint b a.
Proof. unfold disjoint. tauto. Qed.

(** X4. On boxes with [x1 <= x2] and [y1 <= y2]: a threshold above 1
    suppresses nothing, so [nms] only sorts; a threshold of 0 or less keeps
    the top box alone; and with a positive threshold pairwise disjoint
    boxes are all kept. *)
Theorem nms_threshold_extremes (boxes : list Detection) (threshold : Q) :
  Forall well_formed boxes ->
  (1 < threshold ->
   nms boxes threshold = Array_sort by_score_desc boxes)
  /\ (threshold <= 0 ->
      nms boxes threshold = firstn 1 (Array_sort by_score_desc boxes))
  /\ (0 < threshold -> ForallOrdPairs disjoint boxes ->
      nms boxes threshold = Array_sort by_score_desc boxes).
Proof.
  intros Hwf. rewrite nms_unfold.
  pose proof (Array_sort_perm by_score_desc boxes) as Hperm.
  assert (Hwf' : forall b, In b (Array_sort by_score_desc boxes) ->
                           well_formed b).
  { intros b Hb. rewrite Forall_forall in Hwf.
    apply Hwf, (Permutation_in _ Hperm), Hb. }
  split; [| split].
  - intros Hbig. apply suppress_all_stay, ForallOrdPairs_all.
    intros a b Ha Hb. apply Qltb_true.
    destruct (iou_range a b (Hwf' a Ha) (Hwf' b Hb)) as [_ [_ Hlt]]. lra.
  - intros Hsmall.
    destruct (Array_sort by_score_desc boxes) as [| top sorted];
      [apply suppress_nil |].
    simpl. apply suppress_none_stay, Forall_forall. intros b Hb.
    apply Qltb_false.
    destruct (iou_range top b (Hwf' top (or_introl eq_refl))
                (Hwf' b (or_intror Hb))) as [_ [Hge _]]. lra.
  - intros Hpos Hdis. apply suppress_all_stay.
    apply (ForallOrdPairs_perm _ _ _ disjoint_sym (Permutation_sym Hperm))
      in Hdis.
    eapply ForallOrdPairs_impl; [| exact Hdis].
    intros a b Hd. apply Qltb_true.
    rewrite iou_unfold, (interArea_disjoint a b Hd).
    unfold Qdiv. rewrite Qmult_0_l. exact Hpos.
Qed.

(** X4 for three boxes, the first two overlapping: at threshold 1.5 all
    three are returned, at threshold 0 only the one with the highest
    score. *)
Lemma nms_threshold_extremes_witness :
  let l := [ mkDetection 0 0 10 10 0.6 1; mkDetection 0 0 10 8 0.9 1;
             mkDetection 20 20 30 30 0.7 0 ] in
  List.length (nms l 1.5) = 3%nat /\ nms l 0 = [mkDetection 0 0 10 8 0.9 1].
Proof.
  cbv zeta.
  destruct (nms_threshold_extremes
              [ mkDetection 0 0 10 10 0.6 1; mkDetection 0 0 10 8 0.9 1;
                mkDetection 20 20 30 30 0.7 0 ] 1.5) as [H1 _].
  { repeat constructor; simpl; discriminate. }
  destruct (nms_threshold_extremes
              [ mkDetection 0 0 10 10 0.6 1; mkDetection 0 0 10 8 0.9 1;
                mkDetection 20 20 30 30 0.7 0 ] 0) as [_ [H0 _]].
  { repeat constructor; simpl; discriminate. }
  split.
  - rewrite H1 by reflexivity. reflexivity.
  - rewrite H0 by discriminate. reflexivity.
Defined.

(** Inserting a box leaves the boxes of each score in their order. *)
Lemma sort_insert_same_score (s : Q) (x : Detection) (l : list Detection) :
  filter (fun d => Qeq_bool (score d) s) (sort_insert by_score_desc x l)
  = filter (fun d => Qeq_bool (score d) s) (x :: l).
Proof.
  induction l as [| y l IH]; [reflexivity |].
  simpl sort_insert.
  destruct (Qltb 0 (by_score_desc x y)) eqn:E; [| reflexivity].
  apply Qltb_true in E. unfold by_score_desc in E.
  simpl. rewrite IH. simpl.
  destruct (Qeq_bool (score x) s) eqn:Ex;
    destruct (Qeq_bool (score y) s) eqn:Ey; simpl; try reflexivity.
  apply Qeq_bool_iff in Ex. apply Qeq_bool_iff in Ey. lra.
Qed.

(** X5. The sort of line 84 is stable: for every score [s], the boxes of
    score [s] stand in the sorted list in the order they had in the input. *)
Theorem sort_by_score_is_stable (boxes : list Detection) (s : Q) :
  filter (fun d => Qeq_bool (score d) s) (Array_sort by_score_desc boxes)
  = filter (fun d => Qeq_bool (score d) s) boxes.
Proof.
  induction boxes as [| x boxes IH]; [reflexivity |].
  simpl Array_sort. rewrite sort_insert_same_score.
  simpl. now rewrite IH.
Qed.

Lemma sorted_perm_unique (l l' : list Detection) :
  (forall a b, In a l -> In b l -> score a == score b -> a = b) ->
  StronglySorted score_desc l -> StronglySorted score_desc l' ->
  Permutation l l' -> l = l'.
Proof.
  intros Hdistinct Hs. revert l' Hdistinct.
  induction Hs as [| x l Hs IH Hx]; intros l' Hdistinct Hs' Hperm.
  - apply Permutation_nil in Hperm. now subst.
  - destruct l' as [| y l'];
      [apply Permutation_sym, Permutation_nil in Hperm; discriminate |].
    apply StronglySorted_inv in Hs' as [Hs' Hy].
    rewrite Forall_forall in Hx, Hy.
    assert (Hxy : x = y).
    { assert (Hyin : In y (x :: l))
        by (apply (Permutation_in _ (Permutation_sym Hperm)); now left).
      assert (Hxin : In x (y :: l'))
        by (apply (Permutation_in _ Hperm); now left).
      destruct Hyin as [E | Hyin]; [exact E |].
      destruct Hxin as [E | Hxin]; [now symmetry |].
      apply Hdistinct; [now left | now right |].
      specialize (Hx y Hyin). specialize (Hy x Hxin).
      unfold score_desc in *. lra. }
    subst y. f_equal. apply IH.
    + intros a b Ha Hb. apply Hdistinct; now right.
    + exact Hs'.
    + apply (Permutation_cons_inv Hperm).
Qed.

(** X6. When boxes of equal score are equal, the result of [nms] does not
    depend on the order of its input. *)
Theorem nms_input_order_irrelevant
    (boxes boxes' : list Detection) (threshold : Q) :
  (forall a b, In a boxes -> In b boxes -> score a == score b -> a = b) ->
  Permutation boxes boxes' ->
  nms boxes threshold = nms boxes' threshold.
Proof.
  intros Hdistinct Hperm. rewrite !nms_unfold. f_equal.
  apply sorted_perm_unique.
  - intros a b Ha Hb. apply Hdistinct;
      apply (Permutation_in _ (Array_sort_perm by_score_desc boxes));
      assumption.
  - apply Array_sort_score_desc.
  - apply Array_sort_score_desc.
  - rewrite (Array_sort_perm by_score_desc boxes), Hperm.
    symmetry. apply Array_sort_perm.
Qed.

(** X6 for two distant boxes given in either order. *)
Lemma nms_input_order_irrelevant_witness :
  let a := mkDetection 0 0 10 10 0.6 1 in
  let b := mkDetection 20 20 30 30 0.9 0 in
  nms [a; b] 0.5 = nms [b; a] 0.5.
Proof.
  cbv zeta. apply nms_input_order_irrelevant; [| apply perm_swap].
  intros a b [<- | [<- | []]] [<- | [<- | []]] E;
    try reflexivity; vm_compute in E; discriminate E.
Defined.

(** ** Letterbox geometry *)

Lemma Math_round_comp (x y : Q) : x == y -> Math_round x = Math_round y.
Proof.
  intros E. unfold Math_round. f_equal. apply Qfloor_comp. now rewrite E.
Qed.

Lemma Math_round_integer (n : Z) : Math_round (inject_Z n) = inject_Z n.
Proof.
  unfold Math_round. f_equal.
  rewrite (Qfloor_comp _ ((2 * n + 1) # 2)).
  - unfold Qfloor. pose proof (Z.div_mod (2 * n + 1) 2 ltac:(lia)).
    pose proof (Z.mod_pos_bound (2 * n + 1) 2 ltac:(lia)). lia.
  - rewrite (Qmake_Qdiv (2 * n + 1) 2), inject_Z_plus, inject_Z_mult.
    change (inject_Z 2) with 2. change (inject_Z 1) with 1.
    change (inject_Z (Z.pos 2)) with 2. field.
Qed.

(** The padding for a picture side of [n] pixels, as an integer. *)
Lemma Math_round_padding (n : Z) :
  Math_round ((INPUT_SIZE - inject_Z n) / 2) = inject_Z ((641 - n) / 2).
Proof.
  unfold Math_round. f_equal.
  rewrite (Qfloor_comp _ ((641 - n) # 2)); [reflexivity |].
  rewrite (Qmake_Qdiv (641 - n) 2). unfold Z.sub.
  rewrite inject_Z_plus, inject_Z_opp.
  change (inject_Z 641) with 641. change (inject_Z (Z.pos 2)) with 2.
  unfold INPUT_SIZE. field.
Qed.

Lemma Math_round_scaled_side (x : Q) :
  0 <= x <= INPUT_SIZE ->
  exists n : Z, Math_round x = inject_Z n /\ (0 <= n <= 640)%Z.
Proof.
  intros [H0 H1]. exists (Qfloor (x + (1 # 2))). split; [reflexivity |].
  unfold INPUT_SIZE in H1. split.
  - change 0%Z with (Qfloor (1 # 2)). apply Qfloor_resp_le. lra.
  - change 640%Z with (Qfloor (640 + (1 # 2))). apply Qfloor_resp_le. lra.
Qed.

(** X7. For an image with positive width and height, [preprocess] yields a
    positive scale; the scaled picture has integer sides between 0 and 640,
    one of them 640 with padding 0; each padding is a non-negative integer,
    the picture drawn at the padding ends inside the 640x640 canvas, and the
    margin before it exceeds the margin behind it by 0 or 1. *)
Theorem preprocess_picture_inside_canvas (width height : Z) :
  (0 < width)%Z -> (0 < height)%Z ->
  let p := preprocess width height in
  0 < scale p
  /\ (exists w h px py : Z,
         newW p = inject_Z w /\ newH p = inject_Z h
         /\ padX p = inject_Z px /\ padY p = inject_Z py
         /\ (0 <= w <= 640)%Z /\ (0 <= h <= 640)%Z
         /\ (0 <= px /\ px + w <= 640 /\ 0 <= px - (640 - w - px) <= 1)%Z
         /\ (0 <= py /\ py + h <= 640 /\ 0 <= py - (640 - h - py) <= 1)%Z)
  /\ ((newW p = 640 /\ padX p = 0) \/ (newH p = 640 /\ padY p = 0)).
Proof.
  intros Hw Hh. cbv zeta.
  destruct (preprocess_fits width height Hw Hh)
    as [Hs [HfitW [HfitH _]]].
  unfold preprocess in *. cbn [scale newW newH padX padY] in *.
  set (W := inject_Z width) in *. set (H := inject_Z height) in *.
  set (s := Math_min (INPUT_SIZE / W) (INPUT_SIZE / H)) in *.
  assert (HW : 0 < W) by (unfold W; rewrite <- (Zlt_Qlt 0); exact Hw).
  assert (HH : 0 < H) by (unfold H; rewrite <- (Zlt_Qlt 0); exact Hh).
  assert (HWs : 0 <= W * s) by (apply Qmult_le_0_compat; lra).
  assert (HHs : 0 <= H * s) by (apply Qmult_le_0_compat; lra).
  destruct (Math_round_scaled_side (W * s) (conj HWs HfitW)) as [w [Ew Hwb]].
  destruct (Math_round_scaled_side (H * s) (conj HHs HfitH)) as [h [Eh Hhb]].
  rewrite Ew, Eh, !Math_round_padding.
  split; [exact Hs |]. split.
  - exists w, h, ((641 - w) / 2)%Z, ((641 - h) / 2)%Z.
    pose proof (Z.div_mod (641 - w) 2 ltac:(lia)).
    pose proof (Z.mod_pos_bound (641 - w) 2 ltac:(lia)).
    pose proof (Z.div_mod (641 - h) 2 ltac:(lia)).
    pose proof (Z.mod_pos_bound (641 - h) 2 ltac:(lia)).
    repeat split; try reflexivity; lia.
  - assert (Hfill : forall side : Q, 0 < side -> s == INPUT_SIZE / side ->
                      Math_round (side * s) = 640).
    { intros side Hside E.
      rewrite (Math_round_comp _ (inject_Z 640)).
      - apply Math_round_integer.
      - rewrite E. change (inject_Z 640) with INPUT_SIZE.
        field. lra. }
    destruct (Math_min_cases (INPUT_SIZE / W) (INPUT_SIZE / H))
      as [[_ E] | [_ E]]; fold s in E.
    + left. rewrite <- Ew, (Hfill W HW E). split; [reflexivity |].
      assert (w = 640%Z) as ->.
      { apply inject_Z_injective. rewrite <- Ew, (Hfill W HW E). reflexivity. }
      reflexivity.
    + right. rewrite <- Eh, (Hfill H HH E). split; [reflexivity |].
      assert (h = 640%Z) as ->.
      { apply inject_Z_injective. rewrite <- Eh, (Hfill H HH E). reflexivity. }
      reflexivity.
Qed.

(** X7 for a portrait image of 1080x1920 pixels. *)
Lemma preprocess_picture_inside_canvas_witness :
  let p := preprocess 1080 1920 in
  0 < scale p
  /\ ((newW p = 640 /\ padX p = 0) \/ (newH p = 640 /\ padY p = 0)).
Proof.
  cbv zeta.
  destruct (preprocess_picture_inside_canvas 1080 1920) as [Hs [_ Hfill]];
    [reflexivity | reflexivity |].
  split; assumption.
Defined.

(** ** From the image to the tensor and back *)

(** Drawing an image coordinate with the rounded side [n] and mapping it
    back with the unrounded [scale] moves it by at most [1 / (2 * scale)]. *)
Lemma redrawn_coordinate (side s n pad x : Q) :
  0 < side -> 0 < s -> Qabs (n - side * s) <= 1 # 2 -> 0 <= x <= side ->
  Qabs ((pad + x * (n / side) - pad) / s - x) <= 1 / (2 * s).
Proof.
  intros Hside Hs Hn [Hx0 Hx1].
  apply Qabs_Qle_condition in Hn as [Hn1 Hn2].
  set (t := (pad + x * (n / side) - pad) / s).
  assert (Et : t * (side * s) == x * n) by (unfold t; field; lra).
  assert (Hhalf : (1 / (2 * s)) * (2 * s) == 1) by (field; lra).
  set (e := 1 / (2 * s)) in *.
  assert (He : 0 < e) by (apply Qnot_le_lt; intros Hle; nra).
  assert (Hprod : 0 < side * s) by nra.
  apply Qabs_Qle_condition. split.
  - apply Qnot_lt_le. intros Hlt.
    assert ((t - x) * (side * s) < - e * (side * s)) by nra.
    assert (x * (n - side * s) < - e * s * side) by nra.
    assert (- (1 # 2) * x <= x * (n - side * s)) by nra.
    assert (e * s == 1 # 2) by nra.
    nra.
  - apply Qnot_lt_le. intros Hlt.
    assert (e * (side * s) < (t - x) * (side * s)) by nra.
    assert (e * s * side < x * (n - side * s)) by nra.
    assert (x * (n - side * s) <= (1 # 2) * x) by nra.
    assert (e * s == 1 # 2) by nra.
    nra.
Qed.

Lemma clamp_comp (hi u v : Q) : u == v -> clamp hi u == clamp hi v.
Proof.
  intros E. unfold clamp, Math_max, Math_min. now rewrite E.
Qed.

(** Clamping to [0, hi] brings a value no farther from a point of
    [0, hi]. *)
Lemma clamp_nearer (hi v x e : Q) :
  0 <= x <= hi -> Qabs (v - x) <= e -> Qabs (clamp hi v - x) <= e.
Proof.
  intros [Hx0 Hx1] Hv.
  apply Qabs_Qle_condition in Hv as [Hv1 Hv2].
  assert (Hhi : 0 <= hi) by lra.
  destruct (clamp_spec hi v Hhi) as [Hlow [Hmid Hhigh]].
  apply Qabs_Qle_condition.
  destruct (Qlt_le_dec v 0) as [Hneg | Hpos].
  - rewrite Hlow by lra. split; lra.
  - destruct (Qlt_le_dec hi v) as [Hbig | Hsmall].
    + rewrite Hhigh by lra. split; lra.
    + rewrite Hmid by (split; assumption). split; lra.
Qed.

Lemma Math_round_near (x : Q) : Qabs (Math_round x - x) <= 1 # 2.
Proof.
  destruct (Math_round_spec x) as [n [-> [Hlo Hhi]]].
  apply Qabs_Qle_condition. split; lra.
Qed.

(** X8. A box with corners [(a, b)] and [(c, d)] inside an image of positive
    size, drawn on the input canvas as [preprocess] draws the image and
    handed back as centre and size, is remapped by lines 217-238 to corners
    that differ from [(a, b)] and [(c, d)] by at most [1 / (2 * scale)]
    image pixels in each coordinate. *)
Theorem letterbox_round_trip
    (width height : Z) (a b c d bestScore : Q) (bestClass : Z) :
  (0 < width)%Z -> (0 < height)%Z ->
  0 <= a <= inject_Z width -> 0 <= c <= inject_Z width ->
  0 <= b <= inject_Z height -> 0 <= d <= inject_Z height ->
  let p := preprocess width height in
  let tl := drawn_at width height p a b in
  let br := drawn_at width height p c d in
  let det := remap ((fst tl + fst br) / 2) ((snd tl + snd br) / 2)
               (fst br - fst tl) (snd br - snd tl) bestScore bestClass
               (inject_Z width) (inject_Z height)
               (scale p) (padX p) (padY p) in
  Qabs (x1 det - a) <= 1 / (2 * scale p)
  /\ Qabs (y1 det - b) <= 1 / (2 * scale p)
  /\ Qabs (x2 det - c) <= 1 / (2 * scale p)
  /\ Qabs (y2 det - d) <= 1 / (2 * scale p).
Proof.
  intros Hw Hh Ha Hc Hb Hd. cbv zeta.
  destruct (preprocess_fits width height Hw Hh) as [Hs _].
  set (p := preprocess width height) in *.
  assert (HW : 0 < inject_Z width) by (rewrite <- (Zlt_Qlt 0); exact Hw).
  assert (HH : 0 < inject_Z height) by (rewrite <- (Zlt_Qlt 0); exact Hh).
  assert (HnW : Qabs (newW p - inject_Z width * scale p) <= 1 # 2)
    by apply Math_round_near.
  assert (HnH : Qabs (newH p - inject_Z height * scale p) <= 1 # 2)
    by apply Math_round_near.
  unfold remap, drawn_at. cbn [x1 y1 x2 y2 fst snd].
  repeat split.
  - rewrite (clamp_comp _ _
               ((padX p + a * (newW p / inject_Z width) - padX p) / scale p))
      by (field; lra).
    apply clamp_nearer; [exact Ha |]. now apply redrawn_coordinate.
  - rewrite (clamp_comp _ _
               ((padY p + b * (newH p / inject_Z height) - padY p) / scale p))
      by (field; lra).
    apply clamp_nearer; [exact Hb |]. now apply redrawn_coordinate.
  - rewrite (clamp_comp _ _
               ((padX p + c * (newW p / inject_Z width) - padX p) / scale p))
      by (field; lra).
    apply clamp_nearer; [exact Hc |]. now apply redrawn_coordinate.
  - rewrite (clamp_comp _ _
               ((padY p + d * (newH p / inject_Z height) - padY p) / scale p))
      by (field; lra).
    apply clamp_nearer; [exact Hd |]. now apply redrawn_coordinate.
Qed.

(** X8 for the box (300, 150)-(900, 750) of a 1920x1080 image: with the
    scale 1/3 every corner comes back within 1.5 pixels. *)
Lemma letterbox_round_trip_witness :
  let p := preprocess 1920 1080 in
  let tl := drawn_at 1920 1080 p 300 150 in
  let br := drawn_at 1920 1080 p 900 750 in
  let det := remap ((fst tl + fst br) / 2) ((snd tl + snd br) / 2)
               (fst br - fst tl) (snd br - snd tl) 0.9 1
               1920 1080 (scale p) (padX p) (padY p) in
  Qabs (x1 det - 300) <= 1 / (2 * scale p)
  /\ Qabs (y2 det - 750) <= 1 / (2 * scale p).
Proof.
  cbv zeta.
  assert (Hin : forall lo x hi : Z, (lo <= x)%Z -> (x <= hi)%Z ->
                  inject_Z lo <= inject_Z x <= inject_Z hi)
    by (intros lo x hi H1 H2; split; rewrite <- Zle_Qle; assumption).
  destruct (letterbox_round_trip 1920 1080 300 150 900 750 0.9 1
              eq_refl eq_refl
              (Hin 0 300 1920 ltac:(lia) ltac:(lia))
              (Hin 0 900 1920 ltac:(lia) ltac:(lia))
              (Hin 0 150 1080 ltac:(lia) ltac:(lia))
              (Hin 0 750 1080 ltac:(lia) ltac:(lia)))%Z
    as [H1 [_ [_ H4]]].
  split; assumption.
Defined.

(** ** The result of [decodeYOLO] *)

Lemma emitted_length (cfg : Config) (data : list Q) (numClasses numPreds : Z)
    (imgWidth imgHeight scale padX padY : Q) (todo : list Z) :
  (List.length (emitted cfg data numClasses numPreds
                  imgWidth imgHeight scale padX padY todo)
   <= List.length todo)%nat.
Proof.
  unfold emitted. induction todo as [| i todo IH]; simpl; [lia |].
  rewrite length_app.
  destruct (decode_pred _ _ _ _ _ _ _ _ _ i) as [[d |] |]; simpl; lia.
Qed.

Lemma nms_length (boxes : list Detection) (threshold : Q) :
  (List.length (nms boxes threshold) <= List.length boxes)%nat.
Proof.
  rewrite nms_unfold.
  rewrite <- (Permutation_length (Array_sort_perm by_score_desc boxes)).
  generalize (Array_sort by_score_desc boxes). intros l.
  induction (suppress_subseq threshold l); simpl; lia.
Qed.

(** The shipped decoder returns the suppressed candidates. *)
Lemma decodeYOLO_is_nms_of_candidates (output : Tensor)
    (imgWidth imgHeight scale padX padY : Q) :
  exists ds,
    candidates shipped output imgWidth imgHeight scale padX padY = Returned ds
    /\ decodeYOLO output imgWidth imgHeight scale padX padY
       = Returned (nms ds NMS_THRESHOLD)
    /\ (forall batch numAttrs numPreds,
          dims output = [batch; numAttrs; numPreds] ->
          ds = emitted shipped (data output) (numAttrs - 4) numPreds
                 imgWidth imgHeight scale padX padY (upto numPreds))
    /\ (List.length (dims output) <> 3%nat -> ds = []).
Proof.
  destruct (rank_cases (dims output)) as [[b [a [n Hshape]]] | Hrank].
  - eexists. split; [| split; [| split]].
    + apply (candidates_returns _ _ _ _ _ _ _ _ _ _ Hshape
               shipped_threshold_positive).
    + apply (decodeYOLO_with_returns _ _ _ _ _ _ _ _ _ _ Hshape
               shipped_threshold_positive).
    + intros b' a' n' Hshape'. rewrite Hshape in Hshape'.
      injection Hshape' as _ <- <-. reflexivity.
    + intros Hrank. rewrite Hshape in Hrank. now contradiction Hrank.
  - exists []. split; [| split; [| split]].
    + apply candidates_bad_rank, Hrank.
    + unfold decodeYOLO. rewrite (decodeYOLO_with_bad_rank _ _ _ _ _ _ _ Hrank).
      now rewrite nms_nil.
    + intros b a n Hshape. rewrite Hshape in Hrank. now contradiction Hrank.
    + reflexivity.
Qed.

(** X9. [decodeYOLO] returns no more detections than the prediction loop
    pushed candidates, and the loop pushes at most one candidate for each of
    the [numPreds] predictions (none when the rank is not 3). *)
Theorem decodeYOLO_counts (output : Tensor)
    (imgWidth imgHeight scale padX padY : Q) :
  exists ds out,
    candidates shipped output imgWidth imgHeight scale padX padY = Returned ds
    /\ decodeYOLO output imgWidth imgHeight scale padX padY = Returned out
    /\ (List.length out <= List.length ds)%nat
    /\ (forall batch numAttrs numPreds,
          dims output = [batch; numAttrs; numPreds] ->
          (List.length ds <= Z.to_nat numPreds)%nat)
    /\ (List.length (dims output) <> 3%nat -> ds = [] /\ out = []).
Proof.
  destruct (decodeYOLO_is_nms_of_candidates output imgWidth imgHeight
              scale padX padY) as [ds [Eds [Eout [Hpushed Hrank]]]].
  exists ds, (nms ds NMS_THRESHOLD).
  split; [exact Eds |]. split; [exact Eout |].
  split; [apply nms_length |]. split.
  - intros b a n Hshape. rewrite (Hpushed b a n Hshape).
    rewrite <- upto_length. apply emitted_length.
  - intros H. rewrite (Hrank H). split; [reflexivity | apply nms_nil].
Qed.

(** X10. The detections [decodeYOLO] returns stand in the order of
    descending scores, and any two of them have an IoU below
    [NMS_THRESHOLD = 0.5], in either order of the arguments of [iou]. *)
Theorem decodeYOLO_sorted_and_apart (output : Tensor)
    (imgWidth imgHeight scale padX padY : Q) :
  exists out,
    decodeYOLO output imgWidth imgHeight scale padX padY = Returned out
    /\ StronglySorted score_desc out
    /\ ForallOrdPairs (apart NMS_THRESHOLD) out.
Proof.
  destruct (decodeYOLO_is_nms_of_candidates output imgWidth imgHeight
              scale padX padY) as [ds [_ [Eout _]]].
  exists (nms ds NMS_THRESHOLD). split; [exact Eout |]. split.
  - apply nms_score_desc.
  - rewrite nms_unfold. apply suppress_apart.
Qed.

(** X11. For a tensor of rank 3, [decodeYOLO] returns the empty list
    exactly when the best class score of every prediction is below
    [CONF_THRESHOLD = 0.4]. *)
Theorem decodeYOLO_empty_iff (output : Tensor) (batch numAttrs numPreds : Z)
    (imgWidth imgHeight scale padX padY : Q) :
  dims output = [batch; numAttrs; numPreds] ->
  (decodeYOLO output imgWidth imgHeight scale padX padY = Returned []
   <-> forall i, (0 <= i < numPreds)%Z ->
         fst (best_class shipped (data output) (numAttrs - 4) numPreds i)
         < CONF_THRESHOLD).
Proof.
  intros Hshape. unfold decodeYOLO.
  rewrite (decodeYOLO_with_returns _ _ _ _ _ _ _ _ _ _ Hshape
             shipped_threshold_positive).
  set (pushed := emitted shipped (data output) (numAttrs - 4) numPreds
                   imgWidth imgHeight scale padX padY (upto numPreds)).
  assert (Hnil : nms pushed (nms_threshold shipped) = [] <-> pushed = [])
    by apply nms_empty_iff.
  split.
  - intros [= E]. apply Hnil in E. intros i Hi.
    pose proof (decode_pred_spec shipped (data output) (numAttrs - 4) numPreds
                  imgWidth imgHeight scale padX padY i) as Hspec.
    destruct (decode_pred_returns shipped (data output) (numAttrs - 4) numPreds
                imgWidth imgHeight scale padX padY i
                shipped_threshold_positive Hi) as [[d |] Hr];
      rewrite Hr in Hspec; [| exact Hspec].
    assert (Hin : In d pushed).
    { apply (pushed_In shipped output). exists i. now split. }
    rewrite E in Hin. contradiction Hin.
  - intros Hall. f_equal. apply Hnil.
    destruct pushed as [| d rest] eqn:E; [reflexivity | exfalso].
    assert (Hin : In d pushed) by (rewrite E; now left).
    apply (pushed_In shipped output) in Hin. destruct Hin as [i [Hi Hd]].
    destruct (decode_pred_score _ _ _ _ _ _ _ _ _ _ _ Hd) as [Hpass _].
    change (conf_threshold shipped) with CONF_THRESHOLD in Hpass.
    apply (Qle_not_lt _ _ Hpass), Hall, Hi.
Qed.

(** X11 for a tensor of two predictions with the class scores 0.3 and 0.1. *)
Lemma decodeYOLO_empty_iff_witness :
  decodeYOLO (mkTensor [100; 200; 100; 200; 50; 40; 20; 20; 0.3; 0.1]
                [1; 5; 2]%Z) 640 640 1 0 0 = Returned [].
Proof.
  apply (decodeYOLO_empty_iff
           (mkTensor [100; 200; 100; 200; 50; 40; 20; 20; 0.3; 0.1]
              [1; 5; 2]%Z) 1 5 2 640 640 1 0 0 eq_refl).
  intros i Hi. assert (Hcases : i = 0%Z \/ i = 1%Z) by lia.
  destruct Hcases as [-> | ->]; reflexivity.
Defined.

(** ** Class tables and drawing *)

Lemma table_at_CLASSES (k : Z) :
  (0 <= k < 5)%Z ->
  table_at CLASSES k = Some (class_name k)
  /\ table_at CLASS_COLORS k = Some (class_color k).
Proof.
  intros Hk.
  assert (Hcases : k = 0%Z \/ k = 1%Z \/ k = 2%Z \/ k = 3%Z \/ k = 4%Z) by lia.
  destruct Hcases as [-> | [-> | [-> | [-> | ->]]]]; split; reflexivity.
Qed.

Lemma table_at_outside (table : list string) (k : Z) :
  (k < 0 \/ Z.of_nat (List.length table) <= k)%Z -> table_at table k = None.
Proof.
  intros Hk. unfold table_at.
  destruct (k <? 0)%Z eqn:E; [reflexivity |].
  apply Z.ltb_ge in E. apply nth_error_None. lia.
Qed.

(** X12. Every detection [decodeYOLO] returns has a [classId] from 0 to 4
    that is below the number of class channels of the tensor, so that
    [drawDetections] finds its name in [CLASSES] and its colour in
    [CLASS_COLORS] and never uses the fallbacks. *)
Theorem decodeYOLO_class_in_tables (output : Tensor)
    (imgWidth imgHeight scale padX padY : Q) :
  exists out,
    decodeYOLO output imgWidth imgHeight scale padX padY = Returned out
    /\ Forall (fun d =>
                 (0 <= classId d < Z.of_nat (List.length CLASSES))%Z
                 /\ (forall batch numAttrs numPreds,
                       dims output = [batch; numAttrs; numPreds] ->
                       (classId d < numAttrs - 4)%Z)
                 /\ table_at CLASSES (classId d) = Some (class_name (classId d))
                 /\ table_at CLASS_COLORS (classId d)
                    = Some (class_color (classId d))) out.
Proof.
  destruct (proj2 (decoder_returns shipped output imgWidth imgHeight
                     scale padX padY shipped_threshold_positive)) as [out E].
  exists out. split; [exact E |].
  assert (Hall : match decodeYOLO_with shipped output imgWidth imgHeight
                         scale padX padY with
                 | Returned out =>
                     Forall (fun d =>
                               exists batch numAttrs numPreds,
                                 dims output = [batch; numAttrs; numPreds]
                                 /\ (0 <= classId d < 5)%Z
                                 /\ (classId d < numAttrs - 4)%Z) out
                 | NotANumber => True
                 end).
  { apply decoder_Forall. intros b a n i d Hshape _ Hd.
    exists b, a, n. split; [exact Hshape |].
    destruct (decode_pred_score _ _ _ _ _ _ _ _ _ _ _ Hd) as [Hpass [_ ->]].
    pose proof (best_class_scanned shipped (data output) (a - 4) n i)
      as [_ Hfirst].
    destruct Hfirst as [[_ E0] | [Hk _]].
    - rewrite E0 in Hpass. exfalso. revert Hpass. apply Qlt_not_le. reflexivity.
    - unfold channels in Hk. simpl in Hk. lia. }
  rewrite E in Hall. eapply Forall_impl; [| exact Hall].
  intros d [b [a [n [Hshape [Hk Ha]]]]].
  split; [simpl; lia |]. split.
  - intros b' a' n' Hshape'. rewrite Hshape in Hshape'.
    now injection Hshape' as _ <- _.
  - now apply table_at_CLASSES.
Qed.

(** X13. [drawDetections] names a class "drone" exactly when it colours it
    green: for [classId = 1], and for every [classId] outside the tables
    (negative, or 5 and more), where both fallbacks apply; the classes 0, 2,
    3 and 4 are "unknown" and grey. *)
Theorem class_name_and_color_agree (classId : Z) :
  (class_name classId = "drone"%string <-> class_color classId = "#00ff00"%string)
  /\ ((classId < 0 \/ 5 <= classId \/ classId = 1)%Z ->
      class_name classId = "drone"%string
      /\ class_color classId = "#00ff00"%string)
  /\ ((0 <= classId < 5)%Z -> classId <> 1%Z ->
      class_name classId = "unknown"%string
      /\ class_color classId = "#666666"%string).
Proof.
  assert (Hout : (classId < 0 \/ 5 <= classId)%Z ->
                 class_name classId = "drone"%string
                 /\ class_color classId = "#00ff00"%string).
  { intros H. unfold class_name, class_color.
    rewrite !table_at_outside by (simpl; lia). split; reflexivity. }
  assert (Hin : (0 <= classId < 5)%Z ->
                classId = 0%Z \/ classId = 1%Z \/ classId = 2%Z
                \/ classId = 3%Z \/ classId = 4%Z) by lia.
  split; [| split].
  - destruct (Z.lt_ge_cases classId 0) as [Hneg | Hpos];
      [destruct Hout as [-> ->]; [lia | tauto] |].
    destruct (Z.lt_ge_cases classId 5) as [Hsmall | Hbig];
      [| destruct Hout as [-> ->]; [lia | tauto]].
    destruct (Hin (conj Hpos Hsmall)) as [-> | [-> | [-> | [-> | ->]]]];
      split; intros H; try reflexivity; discriminate H.
  - intros [H | [H | ->]]; [apply Hout; lia | apply Hout; lia |].
    split; reflexivity.
  - intros Hk Hne.
    destruct (Hin Hk) as [-> | [-> | [-> | [-> | ->]]]];
      try (split; reflexivity). now contradiction Hne.
Qed.

(** X14. For a detection with [x1 <= x2] and [y1 <= y2] inside an image of
    [imgWidth] x [imgHeight] pixels, the frame stroked by [drawDetections]
    has a non-negative width and height and lies on the canvas.  The label
    background is 24 pixels high and never starts above the canvas: for
    [y1 >= 44] it ends 20 pixels above the frame, otherwise it is the strip
    from 0 to 24; the text is written 16 pixels below its top. *)
Theorem draw_detection_geometry
    (toFixed1 : Q -> string) (measureText : string -> Q)
    (imgWidth imgHeight : Q) (d : Detection) :
  within imgWidth imgHeight d -> well_formed d ->
  exists color label w h top,
    draw_detection toFixed1 measureText d
    = [ StrokeRect color (x1 d) (y1 d) w h;
        FillRect color (x1 d) top (measureText label + 8) 24;
        FillText "white" label (x1 d + 4) (labelY d - 4) ]
    /\ (0 <= w /\ 0 <= h /\ x1 d + w <= imgWidth /\ y1 d + h <= imgHeight)
    /\ 0 <= top
    /\ (44 <= y1 d -> top + 24 == y1 d - 20)
    /\ (y1 d <= 44 -> top == 0)
    /\ labelY d - 4 == top + 16.
Proof.
  intros [Hx1 [Hx2 [Hy1 Hy2]]] [Hx Hy].
  exists (class_color (classId d)), (label_of toFixed1 d),
    (x2 d - x1 d), (y2 d - y1 d), (labelY d - 20).
  split; [reflexivity |].
  split; [repeat split; lra |].
  unfold labelY.
  destruct (Math_max_cases (y1 d - 20 - 4) 20) as [[Hm Em] | [Hm Em]];
    rewrite Em; repeat split; intros; lra.
Qed.

(** X14 for a detection produced by the remapping of a 40x20 box centred
    at (100, 200): its label ends at 170, 20 pixels above the frame. *)
Lemma draw_detection_geometry_witness :
  let d := remap 100 200 40 20 0.9 1 640 640 1 0 0 in
  exists color label w h top,
    draw_detection (fun _ => "90.0"%string) (fun _ => 80) d
    = [ StrokeRect color (x1 d) (y1 d) w h;
        FillRect color (x1 d) top (80 + 8) 24;
        FillText "white" label (x1 d + 4) (labelY d - 4) ]
    /\ 0 <= top /\ top + 24 == 170.
Proof.
  cbv zeta.
  destruct (draw_detection_geometry (fun _ => "90.0"%string) (fun _ => 80)
              640 640 (remap 100 200 40 20 0.9 1 640 640 1 0 0))
    as [color [label [w [h [top [E [_ [Htop [Habove _]]]]]]]]].
  - apply remap_within; discriminate.
  - apply remap_well_formed; [reflexivity | discriminate | discriminate].
  - exists color, label, w, h, top. split; [exact E |].
    split; [exact Htop |]. rewrite Habove by discriminate. reflexivity.
Defined.

(** ** [runInference] *)

Lemma runInference_output (toFixed1 : Q -> string) (measureText : string -> Q)
    (output : Tensor) (width height : Z) (page : Page) :
  exists detections,
    decodeYOLO output (inject_Z width) (inject_Z height)
      (scale (preprocess width height)) (padX (preprocess width height))
      (padY (preprocess width height)) = Returned detections
    /\ runInference toFixed1 measureText (Some (Output0 output))
         width height page
       = Returned
           {| status_text :=
                match detections with
                | [] => "No objects detected"
                | _ :: _ => "✓ Detected " ++ decimal (List.length detections)
                            ++ " object(s)"
                end;
              status_className := "status ready";
              detectionCount := decimal (List.length detections);
              statsGrid_shown := true;
              canvas := drawDetections toFixed1 measureText detections |}.
Proof.
  destruct (proj2 (decoder_returns shipped output
                     (inject_Z width) (inject_Z height)
                     (scale (preprocess width height))
                     (padX (preprocess width height))
                     (padY (preprocess width height))
                     shipped_threshold_positive)) as [detections E].
  exists detections. split; [exact E |].
  unfold runInference. fold decodeYOLO in E. rewrite E. simpl.
  destruct detections; reflexivity.
Qed.

(** X15. With a model loaded and an output tensor delivered, [runInference]
    ends with a status of type "ready", never "error": it shows the stats
    grid with the number of detections [decodeYOLO] returned, draws the
    image and their frames, and says "No objects detected" exactly when
    that number is 0.  A tensor whose rank is not 3 or whose attribute
    count is at most 4 is reported in that way, with the count "0" and the
    bare image on the canvas. *)
Theorem runInference_reports_detections
    (toFixed1 : Q -> string) (measureText : string -> Q)
    (output : Tensor) (width height : Z) (page : Page) :
  exists detections page',
    decodeYOLO output (inject_Z width) (inject_Z height)
      (scale (preprocess width height)) (padX (preprocess width height))
      (padY (preprocess width height)) = Returned detections
    /\ runInference toFixed1 measureText (Some (Output0 output))
         width height page = Returned page'
    /\ status_className page' = "status ready"%string
    /\ (status_text page' = "No objects detected"%string <-> detections = [])
    /\ detectionCount page' = decimal (List.length detections)
    /\ statsGrid_shown page' = true
    /\ canvas page' = drawDetections toFixed1 measureText detections
    /\ ((List.length (dims output) <> 3%nat
         \/ exists batch numAttrs numPreds,
              dims output = [batch; numAttrs; numPreds] /\ (numAttrs <= 4)%Z) ->
        status_text page' = "No objects detected"%string
        /\ detectionCount page' = "0"%string
        /\ canvas page' = [DrawImage 0 0]).
Proof.
  destruct (runInference_output toFixed1 measureText output width height page)
    as [detections [Edec Erun]].
  eexists detections, _. split; [exact Edec |]. split; [exact Erun |].
  cbn [status_text status_className detectionCount statsGrid_shown canvas].
  split; [reflexivity |]. split; [| split; [reflexivity |]].
  - destruct detections; split; intros H; try reflexivity; discriminate H.
  - split; [reflexivity |]. split; [reflexivity |].
    intros Hbad.
    assert (Hnil : detections = []).
    { assert (E0 : decodeYOLO output (inject_Z width) (inject_Z height)
                     (scale (preprocess width height))
                     (padX (preprocess width height))
                     (padY (preprocess width height)) = Returned []).
      { destruct Hbad as [Hrank | [b [a [n [Hshape Ha]]]]].
        - apply decodeYOLO_with_bad_rank, Hrank.
        - unfold decodeYOLO.
          rewrite (decodeYOLO_with_returns _ _ _ _ _ _ _ _ _ _ Hshape
                     shipped_threshold_positive).
          rewrite (emitted_no_channels shipped (data output) (a - 4) n _ _ _ _ _
                     (upto n) shipped_threshold_positive) by lia.
          now rewrite nms_nil. }
      rewrite Edec in E0. now injection E0. }
    subst detections. repeat split.
Qed.

(** ** The input buffer *)

Lemma array_set_length (a : list Q) (k : nat) (v : Q) :
  List.length (array_set a k v) = List.length a.
Proof.
  revert k. induction a as [| x a IH]; intros [| k]; simpl; auto.
Qed.

Lemma array_set_same (a : list Q) (k : nat) (v : Q) :
  (k < List.length a)%nat -> nth_error (array_set a k v) k = Some v.
Proof.
  revert k. induction a as [| x a IH]; intros [| k] Hk; simpl in *;
    try lia; [reflexivity | apply IH; lia].
Qed.

Lemma array_set_other (a : list Q) (k j : nat) (v : Q) :
  j <> k -> nth_error (array_set a k v) j = nth_error a j.
Proof.
  revert k j. induction a as [| x a IH]; intros [| k] [| j] Hjk; simpl;
    try reflexivity; try (now contradiction Hjk).
  apply IH. lia.
Qed.

Lemma array_set_Forall (P : Q -> Prop) (a : list Q) (k : nat) (v : Q) :
  P v -> Forall P a -> Forall P (array_set a k v).
Proof.
  intros Hv Ha. revert k.
  induction Ha as [| x a Hx Ha IH]; intros [| k]; simpl; constructor; auto.
Qed.

Lemma Float32Array_set_length (a : list Q) (k : nat) (v : Q) :
  List.length (Float32Array_set a k v) = List.length a.
Proof. apply array_set_length. Qed.

Lemma channel_at_defined (imageData : list Z) (k : nat) :
  (k < List.length imageData)%nat ->
  exists byte, nth_error imageData k = Some byte
               /\ channel_at imageData k
                  = Some (to_double (inject_Z byte / 255)).
Proof.
  intros Hk. unfold channel_at.
  destruct (nth_error imageData k) as [byte |] eqn:E.
  - now exists byte.
  - apply nth_error_None in E. lia.
Qed.

(** The 256 bytes, one by one. *)
Lemma stored_checked (byte : Z) :
  (0 <= byte <= 255)%Z -> stored_check byte = true.
Proof.
  intros Hbyte.
  assert (Hall : forallb stored_check (upto 256) = true)
    by (vm_compute; reflexivity).
  rewrite forallb_forall in Hall. apply Hall, upto_In. lia.
Qed.

Lemma stored_facts (byte : Z) :
  (0 <= byte <= 255)%Z ->
  0 <= stored byte <= 1
  /\ Qabs (stored byte - inject_Z byte / 255) <= 1 # 33554432
  /\ Math_round (255 * stored byte) = inject_Z byte
  /\ (stored byte == inject_Z byte / 255 <-> byte = 0%Z \/ byte = 255%Z).
Proof.
  intros Hbyte. pose proof (stored_checked byte Hbyte) as H.
  unfold stored_check in H.
  repeat (apply andb_true_iff in H; destruct H as [H ?]).
  repeat match goal with
         | Hle : Qle_bool _ _ = true |- _ => apply Qle_bool_iff in Hle
         end.
  split; [split; assumption |]. split; [assumption |]. split.
  - unfold Math_round. f_equal. now apply Z.eqb_eq.
  - match goal with Heq : Bool.eqb _ _ = true |- _ =>
      apply Bool.eqb_prop in Heq; rename Heq into Hexact end.
    rewrite <- Qeq_bool_iff, Hexact, orb_true_iff, !Z.eqb_eq. reflexivity.
Qed.

Lemma filled_init (pixels : nat) (imageData : list Z) :
  filled_upto pixels imageData 0 (repeat 0 (3 * pixels)).
Proof.
  split; [apply repeat_length |]. split.
  - intros i c Hi Hc. simpl. apply nth_error_repeat. nia.
  - intros _. apply Forall_forall. intros v Hv.
    apply repeat_spec in Hv. subst v. split; discriminate.
Qed.

Lemma filled_step (pixels : nat) (imageData : list Z) (k : nat)
    (input : list Q) :
  List.length imageData = (4 * pixels)%nat -> (k < pixels)%nat ->
  filled_upto pixels imageData k input ->
  exists input',
    store_pixel pixels imageData (Some input) k = Some input'
    /\ filled_upto pixels imageData (S k) input'.
Proof.
  intros Hlen Hk [Hsize [Hlayout Hunit]].
  destruct (channel_at_defined imageData (k * 4) ltac:(lia)) as [r [Hr Er]].
  destruct (channel_at_defined imageData (k * 4 + 1) ltac:(lia)) as [g [Hg Eg]].
  destruct (channel_at_defined imageData (k * 4 + 2) ltac:(lia)) as [b [Hb Eb]].
  unfold store_pixel. rewrite Er, Eg, Eb. eexists. split; [reflexivity |].
  unfold Float32Array_set.
  fold (stored r). fold (stored g). fold (stored b).
  split; [now rewrite !array_set_length |]. split.
  - intros i c Hi Hc.
    destruct (Nat.eq_dec i k) as [-> | Hne].
    + replace (k <? S k)%nat with true by (symmetry; apply Nat.ltb_lt; lia).
      assert (Hcases : c = 0%nat \/ c = 1%nat \/ c = 2%nat) by lia.
      destruct Hcases as [-> | [-> | ->]].
      * rewrite !array_set_other by lia. simpl.
        rewrite array_set_same by lia. now rewrite Nat.add_0_r, Hr.
      * rewrite array_set_other by lia.
        replace (1 * pixels + k)%nat with (k + pixels)%nat by lia.
        rewrite array_set_same by (rewrite array_set_length; lia).
        now rewrite Hg.
      * replace (2 * pixels + k)%nat with (k + 2 * pixels)%nat by lia.
        rewrite array_set_same by (rewrite !array_set_length; lia).
        now rewrite Hb.
    + assert (Hfar : (c * pixels + i <> k /\ c * pixels + i <> k + pixels
                      /\ c * pixels + i <> k + 2 * pixels)%nat).
      { assert (Hcases : c = 0%nat \/ c = 1%nat \/ c = 2%nat) by lia.
        destruct Hcases as [-> | [-> | ->]]; lia. }
      rewrite !array_set_other by tauto.
      rewrite (Hlayout i c Hi Hc).
      destruct (i <? k)%nat eqn:E1; destruct (i <? S k)%nat eqn:E2;
        try reflexivity.
      * apply Nat.ltb_lt in E1. apply Nat.ltb_ge in E2. lia.
      * apply Nat.ltb_ge in E1. apply Nat.ltb_lt in E2. lia.
  - intros Hbytes. specialize (Hunit Hbytes).
    repeat apply array_set_Forall; try exact Hunit;
      apply stored_facts, Hbytes; eapply nth_error_In; eassumption.
Qed.

Lemma filled_loop (pixels : nat) (imageData : list Z) (k : nat) :
  List.length imageData = (4 * pixels)%nat -> (k <= pixels)%nat ->
  exists input,
    fold_left (store_pixel pixels imageData) (seq 0 k)
      (Some (repeat 0 (3 * pixels))) = Some input
    /\ filled_upto pixels imageData k input.
Proof.
  intros Hlen. induction k as [| k IH]; intros Hk.
  - eexists. split; [reflexivity | apply filled_init].
  - destruct (IH ltac:(lia)) as [input [E Hfilled]].
    destruct (filled_step pixels imageData k input Hlen ltac:(lia) Hfilled)
      as [input' [E' Hfilled']].
    exists input'. split; [| exact Hfilled'].
    now rewrite seq_S, fold_left_app, E.
Qed.

(** X16. For the RGBA bytes of a canvas of [pixels] pixels, the loop of
    lines 146-150 returns an array of [3 * pixels] numbers in which entry
    [c * pixels + i] is the float32 nearest to byte [4 * i + c] divided by
    255, for the channels [c = 0, 1, 2] of every pixel [i]: the three colour
    planes one after the other.  The alpha bytes are not read.  For bytes
    from 0 to 255 every entry lies in [0, 1] and within [2^-25] of
    [byte / 255]; it is that quotient itself for the bytes 0 and 255 only,
    and multiplied by 255 and rounded it gives the byte back.  [preprocess]
    runs the loop with [pixels = 640 * 640]. *)
Theorem to_chw_layout (pixels : nat) (imageData : list Z) :
  List.length imageData = (4 * pixels)%nat ->
  exists input,
    to_chw pixels imageData = Some input
    /\ List.length input = (3 * pixels)%nat
    /\ (forall i c, (i < pixels)%nat -> (c < 3)%nat ->
          exists byte,
            nth_error imageData (i * 4 + c) = Some byte
            /\ nth_error input (c * pixels + i)
               = Some (to_float32 (to_double (inject_Z byte / 255))))
    /\ ((forall byte, In byte imageData -> (0 <= byte <= 255)%Z) ->
        Forall (fun v => 0 <= v <= 1) input
        /\ forall i c, (i < pixels)%nat -> (c < 3)%nat ->
             exists byte v,
               nth_error imageData (i * 4 + c) = Some byte
               /\ nth_error input (c * pixels + i) = Some v
               /\ Qabs (v - inject_Z byte / 255) <= 1 # 33554432
               /\ Math_round (255 * v) = inject_Z byte
               /\ (v == inject_Z byte / 255
                   <-> byte = 0%Z \/ byte = 255%Z))
    /\ (forall imageData' : list Z,
          (forall i c, (i < pixels)%nat -> (c < 3)%nat ->
             nth_error imageData' (i * 4 + c) = nth_error imageData (i * 4 + c)) ->
          to_chw pixels imageData' = Some input)
    /\ (pixels = INPUT_PIXELS -> input_buffer imageData = Some input).
Proof.
  intros Hlen.
  destruct (filled_loop pixels imageData pixels Hlen (Nat.le_refl _))
    as [input [E [Hsize [Hlayout Hunit]]]].
  assert (Hentry : forall i c, (i < pixels)%nat -> (c < 3)%nat ->
            exists byte,
              nth_error imageData (i * 4 + c) = Some byte
              /\ nth_error input (c * pixels + i) = Some (stored byte)).
  { intros i c Hi Hc.
    destruct (channel_at_defined imageData (i * 4 + c) ltac:(lia))
      as [byte [Hbyte _]].
    exists byte. split; [exact Hbyte |].
    rewrite (Hlayout i c Hi Hc), Hbyte.
    now replace (i <? pixels)%nat with true
      by (symmetry; apply Nat.ltb_lt; lia). }
  exists input. split; [exact E |]. split; [exact Hsize |].
  split; [exact Hentry |].
  split; [| split; [| intros Hp; subst pixels; exact E]].
  - intros Hbytes. split; [exact (Hunit Hbytes) |].
    intros i c Hi Hc. destruct (Hentry i c Hi Hc) as [byte [Hbyte Hv]].
    exists byte, (stored byte). split; [exact Hbyte |]. split; [exact Hv |].
    apply stored_facts, Hbytes. eapply nth_error_In, Hbyte.
  - intros imageData' Hsame. rewrite <- E. unfold to_chw.
    apply fold_left_ext_in. intros i input0 Hi. apply in_seq in Hi.
    pose proof (Hsame i 0%nat ltac:(lia) ltac:(lia)) as H0.
    rewrite Nat.add_0_r in H0.
    unfold store_pixel, channel_at.
    now rewrite H0, (Hsame i 1%nat), (Hsame i 2%nat) by lia.
Qed.

(** X16 for a canvas of two pixels, one red and opaque, one green-blue and
    transparent: the bytes 51 and 102 are stored as 0.20000000298023224
    and 0.4000000059604645. *)
Lemma to_chw_layout_witness :
  exists input,
    to_chw 2 [255; 0; 51; 255;  0; 255; 102; 0]%Z = Some input
    /\ List.length input = 6%nat
    /\ nth_error input 0 = Some 1
    /\ nth_error input 4 = Some (13421773 # 67108864)
    /\ nth_error input 5 = Some (13421773 # 33554432).
Proof.
  destruct (to_chw_layout 2 [255; 0; 51; 255;  0; 255; 102; 0]%Z eq_refl)
    as [input [E [Hsize [Hlayout _]]]].
  exists input. split; [exact E |]. split; [exact Hsize |].
  destruct (Hlayout 0%nat 0%nat) as [b00 [B00 L00]]; try lia.
  destruct (Hlayout 0%nat 2%nat) as [b02 [B02 L02]]; try lia.
  destruct (Hlayout 1%nat 2%nat) as [b12 [B12 L12]]; try lia.
  simpl in B00, B02, B12.
  injection B00 as <-. injection B02 as <-. injection B12 as <-.
  change (nth_error input 0 = Some (stored 255)) in L00.
  change (nth_error input 4 = Some (stored 51)) in L02.
  change (nth_error input 5 = Some (stored 102)) in L12.
  rewrite L00, L02, L12.
  repeat split; vm_compute; reflexivity.
Defined.

(** ** Class channels beyond [CLASSES] *)

Lemma decode_pred_same_rows (cfg : Config) (data data' : list Q)
    (numClasses numPreds : Z) (imgWidth imgHeight scale padX padY : Q) (i : Z) :
  (forall a, (0 <= a < 4 + Z.of_nat (List.length (classes cfg)))%Z ->
             data_at data' (i + a * numPreds) = data_at data (i + a * numPreds)) ->
  decode_pred cfg data' numClasses numPreds imgWidth imgHeight scale padX padY i
  = decode_pred cfg data numClasses numPreds imgWidth imgHeight scale padX padY i.
Proof.
  intros Hsame.
  assert (Hbest : best_class cfg data' numClasses numPreds i
                  = best_class cfg data numClasses numPreds i).
  { unfold best_class. apply fold_left_ext_in. intros c best Hc.
    apply upto_In in Hc. unfold channels in Hc.
    unfold scan_class, score_of. rewrite Hsame by lia. reflexivity. }
  unfold decode_pred. rewrite Hbest.
  pose proof (Hsame 0%Z ltac:(lia)) as H0.
  pose proof (Hsame 1%Z ltac:(lia)) as H1.
  pose proof (Hsame 2%Z ltac:(lia)) as H2.
  pose proof (Hsame 3%Z ltac:(lia)) as H3.
  rewrite Z.mul_0_l, Z.add_0_r in H0. rewrite Z.mul_1_l in H1.
  now rewrite H0, H1, H2, H3.
Qed.

(** X17. [decodeYOLO] reads the four box rows and the first five class rows
    of the tensor only: two tensors of the same shape that agree on the
    attribute rows 0 to 8 of every prediction give the same result, whatever
    the class channels from the sixth on hold. *)
Theorem decodeYOLO_reads_nine_rows (output output' : Tensor)
    (batch numAttrs numPreds : Z) (imgWidth imgHeight scale padX padY : Q) :
  dims output = [batch; numAttrs; numPreds] ->
  dims output' = [batch; numAttrs; numPreds] ->
  (forall i a, (0 <= i < numPreds)%Z -> (0 <= a < 9)%Z ->
     data_at (data output') (i + a * numPreds)
     = data_at (data output) (i + a * numPreds)) ->
  decodeYOLO output' imgWidth imgHeight scale padX padY
  = decodeYOLO output imgWidth imgHeight scale padX padY.
Proof.
  intros Hshape Hshape' Hsame. unfold decodeYOLO.
  rewrite (decodeYOLO_with_returns _ _ _ _ _ _ _ _ _ _ Hshape
             shipped_threshold_positive).
  rewrite (decodeYOLO_with_returns _ _ _ _ _ _ _ _ _ _ Hshape'
             shipped_threshold_positive).
  do 2 f_equal. unfold emitted.
  assert (Hall : forall i, In i (upto numPreds) ->
            decode_pred shipped (data output') (numAttrs - 4) numPreds
              imgWidth imgHeight scale padX padY i
            = decode_pred shipped (data output) (numAttrs - 4) numPreds
                imgWidth imgHeight scale padX padY i).
  { intros i Hi. apply upto_In in Hi. apply decode_pred_same_rows.
    intros a Ha. apply Hsame; [exact Hi | simpl in Ha; lia]. }
  induction (upto numPreds) as [| i todo IH]; [reflexivity |].
  simpl. rewrite (Hall i (or_introl eq_refl)). f_equal.
  apply IH. intros k Hk. apply Hall. now right.
Qed.

(** X17 for one prediction with seven class channels: a score of 0.99 in
    the seventh channel changes nothing. *)
Lemma decodeYOLO_reads_nine_rows_witness :
  decodeYOLO (mkTensor [100; 100; 40; 20; 0.1; 0.2; 0; 0; 0; 0; 0.99]
                [1; 11; 1]%Z) 640 640 1 0 0
  = decodeYOLO (mkTensor [100; 100; 40; 20; 0.1; 0.2; 0; 0; 0; 0; 0]
                  [1; 11; 1]%Z) 640 640 1 0 0.
Proof.
  apply (decodeYOLO_reads_nine_rows
           (mkTensor [100; 100; 40; 20; 0.1; 0.2; 0; 0; 0; 0; 0] [1; 11; 1]%Z)
           (mkTensor [100; 100; 40; 20; 0.1; 0.2; 0; 0; 0; 0; 0.99] [1; 11; 1]%Z)
           1 11 1 640 640 1 0 0 eq_refl eq_refl).
  intros i a Hi Ha. assert (i = 0%Z) as -> by lia.
  assert (Hcases : (a = 0 \/ a = 1 \/ a = 2 \/ a = 3 \/ a = 4 \/ a = 5
                    \/ a = 6 \/ a = 7 \/ a = 8)%Z) by lia.
  repeat (destruct Hcases as [-> | Hcases]; [reflexivity |]).
  subst a. reflexivity.
Defined.

(** ** Boxes of area 0 *)

Lemma iou_zero_area (k z : Detection) :
  well_formed k -> well_formed z -> area z == 0 -> iou k z == 0.
Proof.
  intros Hk Hz Ez.
  pose proof (interArea_le_area z k Hz) as Hle.
  rewrite (interArea_sym z k) in Hle.
  pose proof (interArea_nonneg k z) as H0.
  assert (E : interArea k z == 0) by lra.
  rewrite iou_unfold, E. unfold Qdiv. ring.
Qed.

(** X18. Among boxes with [x1 <= x2] and [y1 <= y2] and under a positive
    threshold, a box of area 0 (as clamping leaves of a box outside the
    image) has IoU 0 with every box and is never dropped by [nms]. *)
Theorem nms_keeps_boxes_of_area_zero
    (boxes : list Detection) (threshold : Q) (z : Detection) :
  Forall well_formed boxes -> 0 < threshold ->
  In z boxes -> area z == 0 ->
  In z (nms boxes threshold)
  /\ forall b, In b boxes -> iou b z == 0 /\ iou z b == 0.
Proof.
  intros Hwf Hpos Hz Ez. rewrite Forall_forall in Hwf.
  assert (Hzero : forall b, In b boxes -> iou b z == 0 /\ iou z b == 0).
  { intros b Hb.
    assert (E : iou b z == 0) by (apply iou_zero_area; auto).
    split; [exact E |].
    rewrite <- E, !iou_unfold, (interArea_sym z b).
    apply Qmult_comp; [reflexivity |]. apply Qinv_comp. ring. }
  split; [| exact Hzero].
  rewrite nms_unfold.
  pose proof (Array_sort_perm by_score_desc boxes) as Hperm.
  destruct (suppress_covers threshold _ (Array_sort_score_desc boxes) z
              (Permutation_in _ (Permutation_sym Hperm) Hz))
    as [Hin | [k [Hk [_ Hover]]]]; [exact Hin | exfalso].
  apply (subseq_incl _ _ (suppress_subseq threshold _)) in Hk.
  apply (Permutation_in _ Hperm) in Hk.
  destruct (Hzero k Hk) as [E _]. rewrite E in Hover. lra.
Qed.

(** X18 for a box clamped to the left border next to a box it touches. *)
Lemma nms_keeps_boxes_of_area_zero_witness :
  let z := mkDetection 0 10 0 30 0.5 1 in
  let b := mkDetection 0 0 40 40 0.9 1 in
  In z (nms [z; b] 0.5).
Proof.
  cbv zeta.
  apply (nms_keeps_boxes_of_area_zero
           [mkDetection 0 10 0 30 0.5 1; mkDetection 0 0 40 40 0.9 1] 0.5).
  - repeat constructor; simpl; discriminate.
  - reflexivity.
  - now left.
  - reflexivity.
Defined.
